(** * HyperDB: a shallow embedding of the storage core

    The development follows the layout of the JavaScript sources:

    - [Str], [JS], [JSON]: the fragment of the JavaScript runtime the code
      relies on (strings, values, property access, JSON text);
    - [Utils]: [src/utils.js] ([matches], [clone], [deepUpdate],
      [normalizeName]); [Config]: [validateConfig] of the same file;
    - [MemoryCache]: [src/memory-cache.js];
    - [Eff], [Fs]: calls that return or throw, and the calls of Node's
      [fs] and [path] modules the adapters make;
    - [FileStoreAdapter]: [src/adapters/filestore-adapter.js];
    - [JSONAdapter]: [src/adapters/json-adapter.js];
    - [StorageEngine]: [src/storage-engine.js];
    - [HyperDB]: [index.js], with the default configuration;
    - [ScanSpec], [MatcherSpec] and the [...Spec] modules: the notions of
      the specification the statements compare the code with;
    - [Samples]: small concrete states.

    Time ([Date.now()]) and the generated ids ([generateId()]) are inputs
    of the calls that read them.  An [async] method is its body run to
    completion; a rejected promise is a call that throws.

    Definitions come first, the theorems about them follow. *)

From stdpp Require Import gmap strings list fin_maps pretty.
From Stdlib Require Import ZArith Ascii String.

Local Open Scope string_scope.
Local Open Scope list_scope.
Local Open Scope Z_scope.

(* ===================================================================== *)
(** ** Strings *)
(* ===================================================================== *)

Module Str.

(** [s.includes(c)] for a one-character needle. *)
Fixpoint includes (c : ascii) (s : string) : bool :=
  match s with
  | EmptyString => false
  | String a r => if decide (a = c) then true else includes c r
  end.

(** [s.split(c)]: the pieces between the occurrences of [c]; never empty,
    [''.split('.')] is [['']]. *)
Fixpoint split (c : ascii) (s : string) : list string :=
  match s with
  | EmptyString => [EmptyString]
  | String a r =>
      if decide (a = c) then EmptyString :: split c r
      else match split c r with
           | h :: t => String a h :: t
           | [] => [String a EmptyString]
           end
  end.

(** [s.endsWith(suffix)]. *)
Definition endsWith (suffix s : string) : bool :=
  let n := String.length s in
  let k := String.length suffix in
  if decide (k ≤ n)%nat
  then bool_decide (String.substring (n - k) k s = suffix)
  else false.

(** The characters of a string, each as a one-character string. *)
Fixpoint chars (s : string) : list string :=
  match s with
  | EmptyString => []
  | String a r => String a EmptyString :: chars r
  end.

Definition is_upper (a : ascii) : bool :=
  let n := nat_of_ascii a in (65 <=? n)%nat && (n <=? 90)%nat.
Definition is_lower (a : ascii) : bool :=
  let n := nat_of_ascii a in (97 <=? n)%nat && (n <=? 122)%nat.
Definition is_digit (a : ascii) : bool :=
  let n := nat_of_ascii a in (48 <=? n)%nat && (n <=? 57)%nat.

(** [toLowerCase] on one character (the ASCII letters). *)
Definition lower (a : ascii) : ascii :=
  if is_upper a then ascii_of_nat (nat_of_ascii a + 32) else a.

Fixpoint map (f : ascii → ascii) (s : string) : string :=
  match s with
  | EmptyString => EmptyString
  | String a r => String (f a) (map f r)
  end.

Definition toLowerCase (s : string) : string := map lower s.

End Str.

(* ===================================================================== *)
(** ** JavaScript values *)
(* ===================================================================== *)

Module JS.

(** The values the storage layer handles: [undefined] and the JSON data
    model.  Numbers are the integers (timestamps, counters, ages), taken
    within the range JavaScript represents exactly and prints in plain
    decimal; a string is the sequence of its characters, one [ascii] each;
    an object is the list of its own properties in insertion order.  Values
    carry no identity: two separately built objects are never [===], which
    is the situation of a document parsed from a file and a query built by
    the caller. *)
Unset Elimination Schemes.
Inductive value : Type :=
| VUndefined
| VNull
| VBool (b : bool)
| VNum (n : Z)
| VStr (s : string)
| VArr (items : list value)
| VObj (fields : list (string * value)).
Set Elimination Schemes.

(** Induction with the hypotheses for the nested lists. *)
Definition value_ind (P : value → Prop)
    (Hu : P VUndefined) (Hn : P VNull)
    (Hb : ∀ b, P (VBool b)) (Hz : ∀ n, P (VNum n)) (Hs : ∀ s, P (VStr s))
    (Ha : ∀ items, Forall P items → P (VArr items))
    (Ho : ∀ fields, Forall (λ kv, P kv.2) fields → P (VObj fields)) :
    ∀ v, P v :=
  fix go (v : value) : P v :=
    match v with
    | VUndefined => Hu
    | VNull => Hn
    | VBool b => Hb b
    | VNum n => Hz n
    | VStr s => Hs s
    | VArr items =>
        Ha items ((fix all (l : list value) : Forall P l :=
                     match l with
                     | [] => Forall_nil_2 P
                     | x :: r => Forall_cons_2 P x r (go x) (all r)
                     end) items)
    | VObj fields =>
        Ho fields ((fix all (l : list (string * value)) :
                      Forall (λ kv, P kv.2) l :=
                      match l with
                      | [] => Forall_nil_2 _
                      | kv :: r => Forall_cons_2 _ kv r (go kv.2) (all r)
                      end) fields)
    end.

(** [!v] is [negb (truthy v)]. *)
Definition truthy (v : value) : bool :=
  match v with
  | VUndefined | VNull => false
  | VBool b => b
  | VNum n => negb (n =? 0)
  | VStr s => negb (bool_decide (s = ""))
  | VArr _ | VObj _ => true
  end.

(** [v === undefined || v === null]. *)
Definition nullish (v : value) : bool :=
  match v with
  | VUndefined | VNull => true
  | _ => false
  end.

(** [a === b]: primitives by value, objects and arrays by identity. *)
Definition strict_eq (a b : value) : bool :=
  match a, b with
  | VUndefined, VUndefined => true
  | VNull, VNull => true
  | VBool x, VBool y => bool_decide (x = y)
  | VNum x, VNum y => x =? y
  | VStr x, VStr y => bool_decide (x = y)
  | _, _ => false
  end.

(** [a || b]. *)
Definition or_else (a b : value) : value := if truthy a then a else b.

(** First binding of a key in a property list. *)
Fixpoint lookup_field {A} (k : string) (l : list (string * A)) : option A :=
  match l with
  | [] => None
  | (k', x) :: r => if decide (k' = k) then Some x else lookup_field k r
  end.

(** [obj[k] = x] on a property list: an existing property keeps its
    position, a new one goes last. *)
Fixpoint set_field {A} (k : string) (x : A) (l : list (string * A))
  : list (string * A) :=
  match l with
  | [] => [(k, x)]
  | (k', y) :: r =>
      if decide (k' = k) then (k, x) :: r else (k', y) :: set_field k x r
  end.

(** [delete obj[k]]: no property named [k] remains. *)
Definition delete_field {A} (k : string) (l : list (string * A))
  : list (string * A) :=
  filter (λ kv, kv.1 ≠ k) l.

(** The own enumerable properties, as [for ... in], [Object.keys] and the
    spread [{ ...v }] see them: the fields of an object, the indexed
    elements of an array or of a string, nothing for the other values. *)
Definition own_entries (v : value) : list (string * value) :=
  match v with
  | VObj fields => fields
  | VArr items => imap (λ i x, (pretty i, x)) items
  | VStr s => imap (λ i c, (pretty i, VStr c)) (Str.chars s)
  | _ => []
  end.

Definition enum_keys (v : value) : list string := (own_entries v).*1.

(** [v[k]] for a [v] that is neither [undefined] nor [null]: own properties
    and the [length] of arrays and strings.  Members inherited from the
    prototypes (methods) are not JSON data and read as [undefined]. *)
Definition get_prop (v : value) (k : string) : value :=
  match v with
  | VArr items =>
      if decide (k = "length") then VNum (Z.of_nat (List.length items))
      else default VUndefined (lookup_field k (own_entries v))
  | VStr s =>
      if decide (k = "length") then VNum (Z.of_nat (String.length s))
      else default VUndefined (lookup_field k (own_entries v))
  | _ => default VUndefined (lookup_field k (own_entries v))
  end.

(** [{ ...a, ...b }] continued: the properties of [src] written, in order,
    onto the property list [dst]. *)
Definition assign (dst : list (string * value)) (src : value)
  : list (string * value) :=
  fold_left (λ acc kv, set_field kv.1 kv.2 acc) (own_entries src) dst.

(** [`${v}`]: conversion to a string in a template literal. *)
Fixpoint to_string (v : value) : string :=
  match v with
  | VUndefined => "undefined"
  | VNull => "null"
  | VBool true => "true"
  | VBool false => "false"
  | VNum n => pretty n
  | VStr s => s
  | VArr items =>
      (fix join (l : list value) : string :=
         match l with
         | [] => ""
         | [x] => if nullish x then "" else to_string x
         | x :: r => (if nullish x then "" else to_string x) +:+ "," +:+ join r
         end) items
  | VObj _ => "[object Object]"
  end.

End JS.

(* ===================================================================== *)
(** ** [src/utils.js] *)
(* ===================================================================== *)

Module Utils.
Import JS.

(** The inner loop of [matches] over the parts of a dotted key:
    [None] is the early [return false] on an absent intermediate value. *)
Fixpoint walk_parts (parts : list string) (v : value) : option value :=
  match parts with
  | [] => Some v
  | part :: rest =>
      if nullish v then None else walk_parts rest (get_prop v part)
  end.

(** The loop [for (const key in query)] of [matches]. *)
Fixpoint matches_keys (obj query : value) (keys : list string) : bool :=
  match keys with
  | [] => true
  | key :: rest =>
      if Str.includes "." key then
        match walk_parts (Str.split "." key) obj with
        | None => false
        | Some v =>
            if negb (strict_eq v (get_prop query key)) then false
            else matches_keys obj query rest
        end
      else if negb (strict_eq (get_prop query key) (get_prop obj key))
      then false
      else matches_keys obj query rest
  end.

(** [matches(obj, query)]. *)
Definition matches (obj query : value) : bool :=
  if negb (truthy obj) || negb (truthy query) then false
  else matches_keys obj query (enum_keys query).

(** [clone(obj)]: the deep copy.  Values carry no identity, so the copy
    is the value again (lemma [clone_id]). *)
Fixpoint clone (obj : value) : value :=
  match obj with
  | VArr items => VArr (List.map clone items)
  | VObj fields =>
      VObj ((fix props (l : list (string * value)) : list (string * value) :=
               match l with
               | [] => []
               | (k, x) :: r => (k, clone x) :: props r
               end) fields)
  | _ => obj
  end.

(** [typeof v === 'object']. *)
Definition is_object_type (v : value) : bool :=
  match v with
  | VNull | VArr _ | VObj _ => true
  | _ => false
  end.

(** The dotted branch of [deepUpdate] on the object [fields]: walk down
    [parts], replacing whatever is not an object by [{}], and assign [x] at
    the last part.  [None] stands for an assignment into an array, which
    the value model does not describe. *)
Fixpoint set_path (parts : list string) (x : value)
    (fields : list (string * value)) : option (list (string * value)) :=
  match parts with
  | [] => Some fields
  | [last] => Some (set_field last x fields)
  | part :: rest =>
      let child := get_prop (VObj fields) part in
      if negb (truthy child) || negb (is_object_type child) then
        r ← set_path rest x [];
        Some (set_field part (VObj r) fields)
      else
        match child with
        | VObj cf =>
            r ← set_path rest x cf;
            Some (set_field part (VObj r) fields)
        | _ => None
        end
  end.

(** [deepUpdate(obj, update)] for an object [obj]. *)
Definition deepUpdate (obj upd : value) : option value :=
  match clone obj with
  | VObj fields =>
      VObj <$>
        fold_left
          (λ acc key,
             result ← acc;
             if Str.includes "." key
             then set_path (Str.split "." key) (get_prop upd key) result
             else Some (set_field key (get_prop upd key) result))
          (enum_keys upd) (Some fields)
  | _ => None
  end.

(** [name.replace(/[^a-zA-Z0-9_-]/g, '_').toLowerCase()]. *)
Definition name_char_ok (a : ascii) : bool :=
  Str.is_lower a || Str.is_upper a || Str.is_digit a
  || bool_decide (a = "_"%char) || bool_decide (a = "-"%char).

Definition normalizeName (name : string) : string :=
  Str.toLowerCase
    (Str.map (λ a, if name_char_ok a then a else "_"%char) name).

End Utils.

(* ===================================================================== *)
(** ** [src/memory-cache.js] *)
(* ===================================================================== *)

Module MemoryCache.
Import JS.

(** A JavaScript [Map] with string keys: the entries in insertion order.
    [Map.set] keeps the position of an existing key ([set_field]),
    [Map.delete] removes the entry ([delete_field]). *)
Definition map_has {A} (k : string) (m : list (string * A)) : bool :=
  bool_decide (is_Some (lookup_field k m)).

Record stats : Type := Stats {
  hits : Z;
  misses : Z;
  sets : Z;
  deletes : Z
}.

Record t : Type := Cache {
  maxSize : Z;
  ttl : Z;
  cache : list (string * value);
  expiry : list (string * Z);
  stat : stats
}.

Definition zero_stats : stats := Stats 0 0 0 0.

(** [x || d] on an optional number: [undefined] and [0] give [d]. *)
Definition num_or (x : option Z) (d : Z) : Z :=
  match x with
  | Some n => if n =? 0 then d else n
  | None => d
  end.

(** [new MemoryCache(options)]. *)
Definition create (opt_maxSize opt_ttl : option Z) : t :=
  {| maxSize := num_or opt_maxSize 1000;
     ttl := num_or opt_ttl 3600000;
     cache := [];
     expiry := [];
     stat := zero_stats |}.

Definition size (c : t) : Z := Z.of_nat (List.length (cache c)).

(** [delete(key)]. *)
Definition delete (key : string) (c : t) : bool * t :=
  if map_has key (cache c) then
    (true,
     {| maxSize := maxSize c; ttl := ttl c;
        cache := delete_field key (cache c);
        expiry := delete_field key (expiry c);
        stat := {| hits := hits (stat c); misses := misses (stat c);
                   sets := sets (stat c);
                   deletes := deletes (stat c) + 1 |} |})
  else (false, c).

(** The loop of [_evictOldest]: the pair [(oldestKey, oldestTime)], where
    [None] stands for the initial [null], respectively [Infinity]. *)
Definition oldest_step (acc : option string * option Z) (e : string * Z)
  : option string * option Z :=
  let '(oldestKey, oldestTime) := acc in
  let '(key, expiryTime) := e in
  match oldestTime with
  | None => (Some key, Some expiryTime)
  | Some t0 =>
      if expiryTime <? t0 then (Some key, Some expiryTime)
      else (oldestKey, oldestTime)
  end.

Definition oldest_scan (entries : list (string * Z))
  : option string * option Z :=
  fold_left oldest_step entries (None, None).

(** [_evictOldest()]: [if (oldestKey)] is the truthiness of a string or
    [null]. *)
Definition _evictOldest (c : t) : t :=
  match (oldest_scan (expiry c)).1 with
  | Some oldestKey =>
      if truthy (VStr oldestKey) then (delete oldestKey c).2 else c
  | None => c
  end.

(** [set(key, value, ttl = this.ttl)] at time [now]. *)
Definition set (now : Z) (key : string) (v : value) (ttl_arg : option Z)
    (c : t) : bool * t :=
  let ttl0 := match ttl_arg with Some x => x | None => ttl c end in
  let c1 :=
    if (maxSize c <=? size c) && negb (map_has key (cache c))
    then _evictOldest c else c in
  (true,
   {| maxSize := maxSize c1; ttl := ttl c1;
      cache := set_field key v (cache c1);
      expiry := set_field key (now + ttl0) (expiry c1);
      stat := {| hits := hits (stat c1); misses := misses (stat c1);
                 sets := sets (stat c1) + 1;
                 deletes := deletes (stat c1) |} |}).

Definition count_miss (c : t) : t :=
  {| maxSize := maxSize c; ttl := ttl c; cache := cache c;
     expiry := expiry c;
     stat := {| hits := hits (stat c); misses := misses (stat c) + 1;
                sets := sets (stat c); deletes := deletes (stat c) |} |}.

Definition count_hit (c : t) : t :=
  {| maxSize := maxSize c; ttl := ttl c; cache := cache c;
     expiry := expiry c;
     stat := {| hits := hits (stat c) + 1; misses := misses (stat c);
                sets := sets (stat c); deletes := deletes (stat c) |} |}.

(** [expiryTime < Date.now()], where a missing expiry is [undefined] and
    compares as [false]. *)
Definition expired (now : Z) (expiryTime : option Z) : bool :=
  match expiryTime with
  | Some e => e <? now
  | None => false
  end.

(** [get(key)] at time [now]; [VUndefined] is the miss. *)
Definition get (now : Z) (key : string) (c : t) : value * t :=
  if negb (map_has key (cache c)) then (VUndefined, count_miss c)
  else
    let expiryTime := lookup_field key (expiry c) in
    if expired now expiryTime then
      (VUndefined, count_miss (delete key c).2)
    else
      (default VUndefined (lookup_field key (cache c)), count_hit c).

(** [has(key)] at time [now]. *)
Definition has (now : Z) (key : string) (c : t) : bool * t :=
  if negb (map_has key (cache c)) then (false, c)
  else
    let expiryTime := lookup_field key (expiry c) in
    if expired now expiryTime then (false, (delete key c).2)
    else (true, c).

(** [clear()]. *)
Definition clear (c : t) : t :=
  {| maxSize := maxSize c; ttl := ttl c; cache := []; expiry := [];
     stat := zero_stats |}.

(** [cleanup()] at time [now].  The loop runs over the entries of the
    expiry map and deletes only the entry it is visiting, so it visits the
    entries the map had when the loop began. *)
Definition cleanup (now : Z) (c : t) : t :=
  fold_left
    (λ acc e, if e.2 <? now then (delete e.1 acc).2 else acc)
    (expiry c) c.

(** The operations of the public interface, for sequences of calls. *)
Inductive op : Type :=
| OpSet (key : string) (v : value) (ttl_arg : option Z)
| OpGet (key : string)
| OpHas (key : string)
| OpDelete (key : string)
| OpClear
| OpCleanup.

(** One call at time [now]. *)
Definition step (c : t) (call : Z * op) : t :=
  let '(now, o) := call in
  match o with
  | OpSet key v ttl_arg => (set now key v ttl_arg c).2
  | OpGet key => (get now key c).2
  | OpHas key => (has now key c).2
  | OpDelete key => (delete key c).2
  | OpClear => clear c
  | OpCleanup => cleanup now c
  end.

Definition run (calls : list (Z * op)) (c : t) : t :=
  fold_left step calls c.

End MemoryCache.

(* ===================================================================== *)
(** ** JSON text *)
(* ===================================================================== *)

Module JSON.
Import JS.

(** What [JSON.parse(JSON.stringify(v))] gives back: [None] when
    [JSON.stringify] answers [undefined] instead of a text.  An [undefined]
    property is left out of an object, an [undefined] element of an array
    becomes [null]. *)
Fixpoint roundtrip (v : value) : option value :=
  match v with
  | VUndefined => None
  | VArr items =>
      Some (VArr (List.map (λ x, default VNull (roundtrip x)) items))
  | VObj fields =>
      Some (VObj
        ((fix props (l : list (string * value)) : list (string * value) :=
            match l with
            | [] => []
            | (k, x) :: r =>
                match roundtrip x with
                | Some y => (k, y) :: props r
                | None => props r
                end
            end) fields))
  | _ => Some v
  end.

(** The content of a file: a JSON text, identified with the value it
    parses to, or a text that is no JSON at all. *)
Inductive text : Type :=
| JsonText (v : value)
| Garbage (raw : string).

(** [JSON.stringify(v, null, 2)]; [None] is [undefined]. *)
Definition stringify (v : value) : option text := JsonText <$> roundtrip v.

(** [JSON.parse(t)]; [None] is the [SyntaxError]. *)
Definition parse (t : text) : option value :=
  match t with
  | JsonText v => Some v
  | Garbage _ => None
  end.

(** The values JSON represents exactly: no [undefined] at any depth. *)
Fixpoint serializable (v : value) : bool :=
  match v with
  | VUndefined => false
  | VArr items => forallb serializable items
  | VObj fields =>
      (fix all (l : list (string * value)) : bool :=
         match l with
         | [] => true
         | (_, x) :: r => serializable x && all r
         end) fields
  | _ => true
  end.

End JSON.

(* ===================================================================== *)
(** ** Results, exceptions and the file system *)
(* ===================================================================== *)

(** A JavaScript call either returns or throws.  For an [async] method,
    [Throw] is the rejection of the promise it returns. *)
Inductive exn : Type :=
| Error (msg : string)
| TypeError
| SyntaxError
| FsError (code : string).

Inductive res (A : Type) : Type :=
| Ok (a : A)
| Throw (e : exn).
Arguments Ok {A} a.
Arguments Throw {A} e.

(** Computations on a state [S] that may throw. *)
Module Eff.

Definition M (S A : Type) : Type := S → res A * S.

Section Ops.
Context {S : Type}.

Definition ret {A} (a : A) : M S A := λ s, (Ok a, s).
Definition throw {A} (e : exn) : M S A := λ s, (Throw e, s).
Definition bind {A B} (m : M S A) (f : A → M S B) : M S B :=
  λ s, match m s with
       | (Ok a, s') => f a s'
       | (Throw e, s') => (Throw e, s')
       end.

(** [try { body } catch (error) { handler }]: what [body] did to the
    state before it threw stays done. *)
Definition try_catch {A} (body handler : M S A) : M S A :=
  λ s, match body s with
       | (Throw _, s') => handler s'
       | r => r
       end.

Definition get_s : M S S := λ s, (Ok s, s).

Definition of_option {A} (e : exn) (o : option A) : M S A :=
  match o with
  | Some a => ret a
  | None => throw e
  end.

End Ops.

Notation "x <- m ;; k" := (bind m (λ x, k))
  (at level 100, m at next level, right associativity).

End Eff.

Module Fs.

(** An absolute, normalized path: its components from the root. *)
Abbreviation path := (list string).

Inductive node : Type :=
| Dir
| File (t : JSON.text).

(** The file system: its nodes by path, and the paths the operating
    system accepts (the limits on the length of names and paths, the
    characters no name may hold, the access rights).  The root is a
    directory and has no entry of its own. *)
Record t : Type := Disk {
  nodes : gmap path node;
  accepts : path → bool
}.

Definition put (p : path) (n : node) (d : t) : t :=
  {| nodes := <[p := n]> (nodes d); accepts := accepts d |}.

Definition remove (p : path) (d : t) : t :=
  {| nodes := delete p (nodes d); accepts := accepts d |}.

(** One segment of [path.join] (POSIX): empty segments and ["."] vanish,
    [".."] climbs. *)
Definition join_step (acc : path) (c : string) : path :=
  if decide (c = "" ∨ c = ".") then acc
  else if decide (c = "..") then removelast acc
  else acc ++ [c].

(** [path.join(base, seg)] for a normalized absolute [base]. *)
Definition join (base : path) (seg : string) : path :=
  fold_left join_step (Str.split "/" seg) base.

Definition is_dir (d : t) (p : path) : bool :=
  match p with
  | [] => true
  | _ => accepts d p
         && match nodes d !! p with Some Dir => true | _ => false end
  end.

(** The text of the file at [p], if a file is there. *)
Definition file_at (d : t) (p : path) : option JSON.text :=
  if accepts d p then
    match nodes d !! p with
    | Some (File t) => Some t
    | _ => None
    end
  else None.

(** [fs.existsSync(p)]. *)
Definition existsSync (d : t) (p : path) : bool :=
  match p with
  | [] => true
  | _ => accepts d p && bool_decide (is_Some (nodes d !! p))
  end.

(** [fs.mkdirSync(p, { recursive: true })]: creates the missing
    directories along [p]; fails when a file is in the way. *)
Fixpoint mkdir_from (base : path) (rest : list string) (d : t) : res t :=
  match rest with
  | [] => Ok d
  | c :: r =>
      let p := base ++ [c] in
      match nodes d !! p with
      | Some (File _) =>
          Throw (FsError (if r is [] then "EEXIST" else "ENOTDIR"))
      | Some Dir => mkdir_from p r d
      | None => mkdir_from p r (put p Dir d)
      end
  end.

Definition mkdirSync (p : path) (d : t) : res t :=
  if accepts d p then mkdir_from [] p d else Throw (FsError "EINVAL").

(** [fs.writeFileSync(p, data, 'utf8')]: the directory of [p] must exist
    and [p] must not be a directory. *)
Definition writeFileSync (p : path) (data : JSON.text) (d : t) : res t :=
  match p with
  | [] => Throw (FsError "EISDIR")
  | _ =>
      if negb (accepts d p) then Throw (FsError "EINVAL")
      else if negb (is_dir d (removelast p)) then Throw (FsError "ENOENT")
      else match nodes d !! p with
           | Some Dir => Throw (FsError "EISDIR")
           | _ => Ok (put p (File data) d)
           end
  end.

(** [fs.readFileSync(p, 'utf8')]. *)
Definition readFileSync (p : path) (d : t) : res JSON.text :=
  if negb (accepts d p) then Throw (FsError "EINVAL")
  else match nodes d !! p with
       | Some (File t) => Ok t
       | Some Dir => Throw (FsError "EISDIR")
       | None => Throw (FsError (if p is [] then "EISDIR" else "ENOENT"))
       end.

(** [fs.unlinkSync(p)]. *)
Definition unlinkSync (p : path) (d : t) : res t :=
  if negb (accepts d p) then Throw (FsError "EINVAL")
  else match nodes d !! p with
       | Some (File _) => Ok (remove p d)
       | Some Dir => Throw (FsError "EISDIR")
       | None => Throw (FsError (if p is [] then "EISDIR" else "ENOENT"))
       end.

(** The name of [p] when [p] lies directly in [dir]. *)
Definition child_of (dir p : path) : option string :=
  match last p with
  | Some c => if decide (p = dir ++ [c]) then Some c else None
  | None => None
  end.

(** [fs.readdirSync(dir)]: the names in [dir], in the order the file
    system lists them. *)
Definition readdirSync (dir : path) (d : t) : res (list string) :=
  if is_dir d dir then Ok (omap (child_of dir) (elements (dom (nodes d))))
  else Throw (FsError (if existsSync d dir then "ENOTDIR" else "ENOENT")).

(** What a POSIX system accepts at least: names without the NUL character
    and of at most 255 bytes. *)
Definition name_ok (c : string) : bool :=
  negb (Str.includes "000"%char c) && (String.length c <=? 255)%nat.

Definition posix (p : path) : bool := forallb name_ok p.

(** The empty disk of such a system. *)
Definition empty : t := {| nodes := ∅; accepts := posix |}.

End Fs.

(* ===================================================================== *)
(** ** [src/utils.js]: the configuration *)
(* ===================================================================== *)

Module Config.
Import JS.

(** The constants of [validateConfig]. *)
Definition defaultCache : list (string * value) :=
  [("enabled", VBool true); ("maxSize", VNum 1000); ("ttl", VNum 3600000)].

Definition defaultSync : list (string * value) := [("enabled", VBool false)].

Definition defaultRealtime : list (string * value) :=
  [("enabled", VBool false)].

Definition defaultConfig : list (string * value) :=
  [("storage", VStr "filestore"); ("path", VStr "./hyperdb-data");
   ("cache", VObj defaultCache); ("sync", VObj defaultSync);
   ("realtime", VObj defaultRealtime)].

Definition validStorageTypes : list string :=
  ["filestore"; "json"; "sqlite"; "leveldb"; "mongodb"; "postgres"].

Definition validSyncTypes : list string :=
  ["firebase"; "supabase"; "custom"; "aws"].

(** [v.toLowerCase()]: only a string has the method. *)
Definition toLowerCase_of (v : value) : res string :=
  match v with
  | VStr s => Ok (Str.toLowerCase s)
  | _ => Throw TypeError
  end.

(** [v?.k]. *)
Definition opt_member (v : value) (k : string) : value :=
  if nullish v then VUndefined else get_prop v k.

(** The storage check: the configuration it leaves, where a storage type
    that is not a valid one has been replaced by ['filestore']. *)
Definition check_storage (config : list (string * value))
  : res (list (string * value)) :=
  let storage := get_prop (VObj config) "storage" in
  if truthy storage then
    match toLowerCase_of storage with
    | Ok lowered =>
        Ok (if negb (bool_decide (lowered ∈ validStorageTypes))
            then set_field "storage" (VStr "filestore") config
            else config)
    | Throw e => Throw e
    end
  else Ok config.

(** The sync check. *)
Definition check_sync (config : list (string * value)) : res unit :=
  let sync := get_prop (VObj config) "sync" in
  if truthy (opt_member sync "enabled") then
    if negb (truthy (get_prop sync "type")) then
      Throw (Error "Sync type is required when sync is enabled")
    else
      match toLowerCase_of (get_prop sync "type") with
      | Ok lowered =>
          if negb (bool_decide (lowered ∈ validSyncTypes)) then
            Throw (Error ("Invalid sync type: "
                          +:+ to_string (get_prop sync "type")
                          +:+ ". Valid types are: "
                          +:+ "firebase, supabase, custom, aws"))
          else if negb (truthy (get_prop sync "config")) then
            Throw (Error "Sync config is required when sync is enabled")
          else Ok ()
      | Throw e => Throw e
      end
  else Ok ().

(** The realtime check. *)
Definition check_realtime (config : list (string * value)) : res unit :=
  let realtime := get_prop (VObj config) "realtime" in
  if truthy (opt_member realtime "enabled") then
    if negb (truthy (get_prop realtime "serverUrl"))
       && negb (truthy (get_prop realtime "server"))
    then
      Throw (Error ("Server URL or server configuration is required "
                    +:+ "for realtime sync"))
    else Ok ()
  else Ok ().

(** The merge with the defaults. *)
Definition merged (config : list (string * value)) : value :=
  let section (defaults : list (string * value)) (k : string) : value :=
    VObj (assign (assign [] (VObj defaults)) (get_prop (VObj config) k)) in
  VObj
    (set_field "realtime" (section defaultRealtime "realtime")
       (set_field "sync" (section defaultSync "sync")
          (set_field "cache" (section defaultCache "cache")
             (assign (assign [] (VObj defaultConfig)) (VObj config))))).

(** [validateConfig(config)] for a configuration that is an object, given
    by its properties. *)
Definition validateConfig (config : list (string * value)) : res value :=
  match check_storage config with
  | Ok config1 =>
      match check_sync config1 with
      | Ok _ =>
          match check_realtime config1 with
          | Ok _ => Ok (merged config1)
          | Throw e => Throw e
          end
      | Throw e => Throw e
      end
  | Throw e => Throw e
  end.

End Config.

(* ===================================================================== *)
(** ** [src/adapters/filestore-adapter.js] *)
(* ===================================================================== *)

(** What a call reads from its environment: the clock ([Date.now()]) and
    the string [generateId()] would produce. *)
Record env : Type := Env {
  now : Z;
  fresh_id : string
}.

Module FileStoreAdapter.
Import JS Utils Eff.

(** The adapter object ([dbDir], [connected], [collections], a JavaScript
    [Set] kept as the list of its elements in insertion order) together
    with the disk it works on. *)
Record state : Type := State {
  disk : Fs.t;
  dbDir : Fs.path;
  connected : bool;
  collections : list value
}.

(** The paths the constructor derives from [dbDir]. *)
Definition keyValueDir (s : state) : Fs.path := Fs.join (dbDir s) "keyvalue".
Definition collectionsDir (s : state) : Fs.path :=
  Fs.join (dbDir s) "collections".
Definition collectionsListFile (s : state) : Fs.path :=
  Fs.join (dbDir s) "collections.json".

(** [new FileStoreAdapter(config)], [root] being the resolved
    [config.path]. *)
Definition create (root : Fs.path) (m : Fs.t) : state :=
  {| disk := m; dbDir := root; connected := false; collections := [] |}.

(** Computations on the adapter and its disk. *)
Abbreviation M := (Eff.M state).

(** [this.connected = b] and [this.collections = l]. *)
Definition set_connected (b : bool) : M unit :=
  λ s, (Ok (),
        {| disk := disk s; dbDir := dbDir s; connected := b;
           collections := collections s |}).

Definition set_collections (l : list value) : M unit :=
  λ s, (Ok (),
        {| disk := disk s; dbDir := dbDir s; connected := connected s;
           collections := l |}).

(** A call of [fs] that reads the disk, and one that changes it. *)
Definition fs_read {A} (f : Fs.t → res A) : M A := λ s, (f (disk s), s).

Definition with_disk (m : Fs.t) (s : state) : state :=
  {| disk := m; dbDir := dbDir s; connected := connected s;
     collections := collections s |}.

Definition fs_write (f : Fs.t → res Fs.t) : M unit :=
  λ s, match f (disk s) with
       | Ok m => (Ok (), with_disk m s)
       | Throw e => (Throw e, s)
       end.

Definition existsSync (p : Fs.path) : M bool :=
  s <- get_s ;; ret (Fs.existsSync (disk s) p).

(** [fs.writeFileSync(p, JSON.stringify(v, null, 2), 'utf8')]; data that
    is [undefined] is refused with a [TypeError]. *)
Definition writeJson (p : Fs.path) (v : value) : M unit :=
  match JSON.stringify v with
  | Some t => fs_write (Fs.writeFileSync p t)
  | None => throw TypeError
  end.

(** [JSON.parse(fs.readFileSync(p, 'utf8'))]. *)
Definition readJson (p : Fs.path) : M value :=
  data <- fs_read (Fs.readFileSync p) ;;
  of_option SyntaxError (JSON.parse data).

(** [v[k]] where [v] may be [undefined] or [null]. *)
Definition member (v : value) (k : string) : M value :=
  if nullish v then throw TypeError else ret (get_prop v k).

(** [v.id || v._id]. *)
Definition id_of (v : value) : M value :=
  a <- member v "id" ;;
  if truthy a then ret a else member v "_id".

(** *** The [Set] of collection names *)

(** [l.has(x)] and [l.add(x)]. *)
Definition set_has (x : value) (l : list value) : bool :=
  existsb (strict_eq x) l.

Definition set_add (x : value) (l : list value) : list value :=
  if set_has x l then l else l ++ [x].

(** [new Set(v)]: [None] is the [TypeError] for a value that is not
    iterable. *)
Definition new_Set (v : value) : option (list value) :=
  match v with
  | VArr items => Some (fold_left (λ acc x, set_add x acc) items [])
  | VStr s =>
      Some (fold_left (λ acc x, set_add x acc) (VStr <$> Str.chars s) [])
  | VUndefined | VNull => Some []
  | _ => None
  end.

(** [normalizeName(v)] on a value read from disk: anything but a string
    has no [replace] method. *)
Definition normalizeName_of (v : value) : option string :=
  match v with
  | VStr s => Some (normalizeName s)
  | _ => None
  end.

(** *** The methods *)

(** [_ensureConnected()]. *)
Definition _ensureConnected : M unit :=
  s <- get_s ;;
  if connected s then ret ()
  else throw (Error "Not connected to FileStore database").

(** [if (!fs.existsSync(p)) fs.mkdirSync(p, { recursive: true })]. *)
Definition ensure_dir (p : Fs.path) : M unit :=
  ex <- existsSync p ;;
  if negb ex then fs_write (Fs.mkdirSync p) else ret ().

(** The loop of [connect] over the loaded collection names. *)
Fixpoint ensure_collection_dirs (l : list value) : M unit :=
  match l with
  | [] => ret ()
  | collection :: rest =>
      name <- of_option TypeError (normalizeName_of collection) ;;
      s <- get_s ;;
      _ <- ensure_dir (Fs.join (collectionsDir s) name) ;;
      ensure_collection_dirs rest
  end.

(** [connect()]. *)
Definition connect : M value :=
  try_catch
    (s <- get_s ;;
     _ <- ensure_dir (dbDir s) ;;
     _ <- ensure_dir (keyValueDir s) ;;
     _ <- ensure_dir (collectionsDir s) ;;
     ex <- existsSync (collectionsListFile s) ;;
     _ <- (if ex then
            try_catch
              (collectionsArray <- readJson (collectionsListFile s) ;;
               cs <- of_option TypeError (new_Set collectionsArray) ;;
               _ <- set_collections cs ;;
               ensure_collection_dirs cs)
              (writeJson (collectionsListFile s) (VArr []))
          else writeJson (collectionsListFile s) (VArr [])) ;;
     _ <- set_connected true ;;
     ret (VBool true))
    (ret (VBool false)).

(** [close()]. *)
Definition close : M value :=
  _ <- set_connected false ;; ret (VBool true).

(** [set(key, value)]. *)
Definition set (key : string) (v : value) : M value :=
  _ <- _ensureConnected ;;
  try_catch
    (s <- get_s ;;
     let filePath := Fs.join (keyValueDir s) (key +:+ ".json") in
     _ <- writeJson filePath v ;;
     ret (VBool true))
    (ret (VBool false)).

(** [get(key)]. *)
Definition get (key : string) : M value :=
  _ <- _ensureConnected ;;
  try_catch
    (s <- get_s ;;
     let filePath := Fs.join (keyValueDir s) (key +:+ ".json") in
     ex <- existsSync filePath ;;
     if negb ex then ret VNull else readJson filePath)
    (ret VNull).

(** [has(key)]. *)
Definition has (key : string) : M value :=
  _ <- _ensureConnected ;;
  try_catch
    (s <- get_s ;;
     let filePath := Fs.join (keyValueDir s) (key +:+ ".json") in
     ex <- existsSync filePath ;;
     ret (VBool ex))
    (ret (VBool false)).

(** [delete(key)]. *)
Definition delete (key : string) : M value :=
  _ <- _ensureConnected ;;
  try_catch
    (s <- get_s ;;
     let filePath := Fs.join (keyValueDir s) (key +:+ ".json") in
     ex <- existsSync filePath ;;
     if negb ex then ret (VBool false)
     else _ <- fs_write (Fs.unlinkSync filePath) ;; ret (VBool true))
    (ret (VBool false)).

(** [getCollections()]. *)
Definition getCollections : M value :=
  _ <- _ensureConnected ;;
  try_catch
    (s <- get_s ;;
     ret (VArr ((λ name, VObj [("name", name)]) <$> collections s)))
    (ret (VArr [])).

(** [createCollection(name)]. *)
Definition createCollection (name : string) : M value :=
  _ <- _ensureConnected ;;
  try_catch
    (let normalizedName := normalizeName name in
     s <- get_s ;;
     let collectionDir := Fs.join (collectionsDir s) normalizedName in
     _ <- ensure_dir collectionDir ;;
     s1 <- get_s ;;
     _ <- (if negb (set_has (VStr normalizedName) (collections s1)) then
            let cs := set_add (VStr normalizedName) (collections s1) in
            _ <- set_collections cs ;;
            writeJson (collectionsListFile s) (VArr cs)
          else ret ()) ;;
     ret (VBool true))
    (ret (VBool false)).

(** The document [insert] writes: the copy of [document] with its id and
    both timestamps. *)
Definition with_id (e : env) (document : value) : list (string * value) :=
  let docWithId := assign [] document in
  if negb (truthy (get_prop (VObj docWithId) "id"))
     && negb (truthy (get_prop (VObj docWithId) "_id"))
  then set_field "id" (VStr (fresh_id e)) docWithId
  else docWithId.

Definition stamped (e : env) (document : value) : list (string * value) :=
  set_field "updated_at" (VNum (now e))
    (set_field "created_at" (VNum (now e)) (with_id e document)).

(** [insert(collection, document)]. *)
Definition insert (e : env) (collection : string) (document : value)
  : M value :=
  _ <- _ensureConnected ;;
  try_catch
    (let normalizedName := normalizeName collection in
     _ <- createCollection normalizedName ;;
     let docWithId := with_id e document in
     let id := or_else (get_prop (VObj docWithId) "id")
                       (get_prop (VObj docWithId) "_id") in
     s <- get_s ;;
     let docPath :=
       Fs.join (Fs.join (collectionsDir s) normalizedName)
               (to_string id +:+ ".json") in
     _ <- writeJson docPath (VObj (stamped e document)) ;;
     ret (VBool true))
    (ret (VBool false)).

(** The scan of [findOne]: the first document the matcher accepts. *)
Fixpoint findOne_scan (collectionDir : Fs.path) (query : value)
    (files : list string) : M value :=
  match files with
  | [] => ret VNull
  | file :: rest =>
      if Str.endsWith ".json" file then
        doc <- readJson (Fs.join collectionDir file) ;;
        if matches doc query then ret doc
        else findOne_scan collectionDir query rest
      else findOne_scan collectionDir query rest
  end.

(** [findOne(collection, query)]. *)
Definition findOne (collection : string) (query : value) : M value :=
  _ <- _ensureConnected ;;
  try_catch
    (let normalizedName := normalizeName collection in
     s <- get_s ;;
     if negb (set_has (VStr normalizedName) (collections s)) then ret VNull
     else
       id <- id_of query ;;
       if truthy id then
         let docPath :=
           Fs.join (Fs.join (collectionsDir s) normalizedName)
                   (to_string id +:+ ".json") in
         ex <- existsSync docPath ;;
         if ex then readJson docPath else ret VNull
       else
         let collectionDir := Fs.join (collectionsDir s) normalizedName in
         files <- fs_read (Fs.readdirSync collectionDir) ;;
         findOne_scan collectionDir query files)
    (ret VNull).

(** [!query || Object.keys(query).length === 0 || matches(doc, query)]. *)
Definition find_keeps (query doc : value) : bool :=
  negb (truthy query)
  || bool_decide (enum_keys query = [])
  || matches doc query.

(** The loop of [find], [documents] being the array built so far. *)
Fixpoint find_scan (collectionDir : Fs.path) (query : value)
    (files : list string) (documents : list value) : M (list value) :=
  match files with
  | [] => ret documents
  | file :: rest =>
      if Str.endsWith ".json" file then
        doc <- readJson (Fs.join collectionDir file) ;;
        if find_keeps query doc
        then find_scan collectionDir query rest (documents ++ [doc])
        else find_scan collectionDir query rest documents
      else find_scan collectionDir query rest documents
  end.

(** [find(collection, query)], as the list of the documents found. *)
Definition find_docs (collection : string) (query : value)
  : M (list value) :=
  _ <- _ensureConnected ;;
  try_catch
    (let normalizedName := normalizeName collection in
     s <- get_s ;;
     if negb (set_has (VStr normalizedName) (collections s)) then ret []
     else
       let collectionDir := Fs.join (collectionsDir s) normalizedName in
       files <- fs_read (Fs.readdirSync collectionDir) ;;
       find_scan collectionDir query files [])
    (ret []).

Definition find (collection : string) (query : value) : M value :=
  docs <- find_docs collection query ;; ret (VArr docs).

(** [{ ...doc, ...update, updated_at: now }]. *)
Definition updated_doc (now : Z) (doc upd : value) : value :=
  VObj (set_field "updated_at" (VNum now) (assign (assign [] doc) upd)).

(** The loop of [update] over the documents found. *)
Fixpoint update_loop (now : Z) (dir : Fs.path) (upd : value)
    (docs : list value) (updatedCount : Z) : M Z :=
  match docs with
  | [] => ret updatedCount
  | doc :: rest =>
      id <- id_of doc ;;
      let docPath := Fs.join dir (to_string id +:+ ".json") in
      _ <- writeJson docPath (updated_doc now doc upd) ;;
      update_loop now dir upd rest (updatedCount + 1)
  end.

(** [update(collection, query, update)]. *)
Definition update (e : env) (collection : string) (query upd : value)
  : M value :=
  _ <- _ensureConnected ;;
  try_catch
    (let normalizedName := normalizeName collection in
     s <- get_s ;;
     if negb (set_has (VStr normalizedName) (collections s))
     then ret (VNum 0)
     else
       docs <- find_docs collection query ;;
       if bool_decide (docs = []) then ret (VNum 0)
       else
         n <- update_loop (now e)
               (Fs.join (collectionsDir s) normalizedName) upd docs 0 ;;
         ret (VNum n))
    (ret (VNum 0)).

(** The loop of [deleteFrom] over the documents found. *)
Fixpoint delete_loop (dir : Fs.path) (docs : list value) (deletedCount : Z)
  : M Z :=
  match docs with
  | [] => ret deletedCount
  | doc :: rest =>
      id <- id_of doc ;;
      let docPath := Fs.join dir (to_string id +:+ ".json") in
      ex <- existsSync docPath ;;
      if ex then
        _ <- fs_write (Fs.unlinkSync docPath) ;;
        delete_loop dir rest (deletedCount + 1)
      else delete_loop dir rest deletedCount
  end.

(** [deleteFrom(collection, query)]. *)
Definition deleteFrom (collection : string) (query : value) : M value :=
  _ <- _ensureConnected ;;
  try_catch
    (let normalizedName := normalizeName collection in
     s <- get_s ;;
     if negb (set_has (VStr normalizedName) (collections s))
     then ret (VNum 0)
     else
       id <- id_of query ;;
       if truthy id then
         let docPath :=
           Fs.join (Fs.join (collectionsDir s) normalizedName)
                   (to_string id +:+ ".json") in
         ex <- existsSync docPath ;;
         if ex then _ <- fs_write (Fs.unlinkSync docPath) ;; ret (VNum 1)
         else ret (VNum 0)
       else
         docs <- find_docs collection query ;;
         if bool_decide (docs = []) then ret (VNum 0)
         else
           n <- delete_loop (Fs.join (collectionsDir s) normalizedName)
                 docs 0 ;;
           ret (VNum n))
    (ret (VNum 0)).

(** The data operations of the adapter, for statements about all of
    them. *)
Inductive op : Type :=
| Set_ (key : string) (v : value)
| Get (key : string)
| Has (key : string)
| Delete (key : string)
| GetCollections
| CreateCollection (name : string)
| Insert (collection : string) (document : value)
| FindOne (collection : string) (query : value)
| Find (collection : string) (query : value)
| Update (collection : string) (query upd : value)
| DeleteFrom (collection : string) (query : value).

Definition call (e : env) (o : op) : M value :=
  match o with
  | Set_ key v => set key v
  | Get key => get key
  | Has key => has key
  | Delete key => delete key
  | GetCollections => getCollections
  | CreateCollection name => createCollection name
  | Insert collection document => insert e collection document
  | FindOne collection query => findOne collection query
  | Find collection query => find collection query
  | Update collection query upd => update e collection query upd
  | DeleteFrom collection query => deleteFrom collection query
  end.

End FileStoreAdapter.

(* ===================================================================== *)
(** ** [src/adapters/json-adapter.js] *)
(* ===================================================================== *)

Module JSONAdapter.
Import JS Utils Eff.

(** The adapter object with the disk it works on.  [kvStore] and
    [collections] are the two objects of [this.data], as property lists;
    a data file whose top level is not a JSON object is outside this
    model (see [connect]).  The documents stay in memory, so the model
    covers the runs in which the caller hands in no object or array that
    a stored document already holds by reference: ids and compared fields
    are primitive values.  Modelled are the methods the statements below
    are about and those they run: [connect], [close], [_saveData],
    [createCollection], [insert], [findOne], [find], [update], and the
    key/value methods [set], [get], [has], [delete]. *)
Record state : Type := State {
  disk : Fs.t;
  dataDir : Fs.path;
  connected : bool;
  kvStore : list (string * value);
  collections : list (string * value)
}.

(** Computations on the adapter and its disk. *)
Abbreviation M := (Eff.M state).

(** The paths the constructor derives from [dataDir]. *)
Definition kvFile (s : state) : Fs.path := Fs.join (dataDir s) "kv-store.json".
Definition collectionsFile (s : state) : Fs.path :=
  Fs.join (dataDir s) "collections.json".

(** [new JSONAdapter(config)]. *)
Definition create (root : Fs.path) (m : Fs.t) : state :=
  {| disk := m; dataDir := root; connected := false;
     kvStore := []; collections := [] |}.

(** The adapter with one field replaced. *)
Definition with_disk (m : Fs.t) (s : state) : state :=
  {| disk := m; dataDir := dataDir s; connected := connected s;
     kvStore := kvStore s; collections := collections s |}.

Definition with_collections (c : list (string * value)) (s : state) : state :=
  {| disk := disk s; dataDir := dataDir s; connected := connected s;
     kvStore := kvStore s; collections := c |}.

Definition set_connected (b : bool) : M unit :=
  λ s, (Ok (),
        {| disk := disk s; dataDir := dataDir s; connected := b;
           kvStore := kvStore s; collections := collections s |}).

Definition set_kvStore (kv : list (string * value)) : M unit :=
  λ s, (Ok (),
        {| disk := disk s; dataDir := dataDir s; connected := connected s;
           kvStore := kv; collections := collections s |}).

Definition set_data_collections (c : list (string * value)) : M unit :=
  λ s, (Ok (), with_collections c s).

(** A call of [fs] that reads the disk, and one that changes it. *)
Definition fs_read {A} (f : Fs.t → res A) : M A := λ s, (f (disk s), s).

Definition fs_write (f : Fs.t → res Fs.t) : M unit :=
  λ s, match f (disk s) with
       | Ok m => (Ok (), with_disk m s)
       | Throw e => (Throw e, s)
       end.

(** [fs.writeFileSync(p, JSON.stringify(v, null, 2), 'utf8')],
    [JSON.parse(fs.readFileSync(p, 'utf8'))] and [v[k]], as in the
    file-backed adapter. *)
Definition writeJson (p : Fs.path) (v : value) : M unit :=
  match JSON.stringify v with
  | Some t => fs_write (Fs.writeFileSync p t)
  | None => throw TypeError
  end.

Definition readJson (p : Fs.path) : M value :=
  data <- fs_read (Fs.readFileSync p) ;;
  of_option SyntaxError (JSON.parse data).

Definition member (v : value) (k : string) : M value :=
  if nullish v then throw TypeError else ret (get_prop v k).

(** The elements of a value used as an array ([findIndex], [find],
    [filter], [push], [length]): anything but an array has none of these
    methods. *)
Definition as_array (v : value) : M (list value) :=
  match v with
  | VArr items => ret items
  | _ => throw TypeError
  end.

(** [_ensureConnected()]. *)
Definition _ensureConnected : M unit :=
  s <- get_s ;;
  if connected s then ret ()
  else throw (Error "Not connected to JSON storage").

(** [_saveData()]. *)
Definition _saveData : M value :=
  try_catch
    (s <- get_s ;;
     _ <- writeJson (kvFile s) (VObj (kvStore s)) ;;
     _ <- writeJson (collectionsFile s) (VObj (collections s)) ;;
     ret (VBool true))
    (ret (VBool false)).

(** Loading one data file in [connect]: the parsed object if the file
    exists, else the file is created holding [{}].  The inner [None]
    marks a file whose top level is not an object. *)
Definition load (p : Fs.path) (current : list (string * value))
  : M (option (list (string * value))) :=
  s <- get_s ;;
  if Fs.existsSync (disk s) p then
    v <- readJson p ;;
    ret (match v with VObj fields => Some fields | _ => None end)
  else
    _ <- writeJson p (VObj []) ;;
    ret (Some current).

(** [connect()]; [None] when a data file is outside the model. *)
Definition connect (s : state) : option (res value * state) :=
  let body : M (option value) :=
    try_catch
      (s0 <- get_s ;;
       _ <- (if negb (Fs.existsSync (disk s0) (dataDir s0))
             then fs_write (Fs.mkdirSync (dataDir s0)) else ret ()) ;;
       kv <- load (kvFile s0) (kvStore s0) ;;
       match kv with
       | None => ret None
       | Some kvFields =>
           _ <- set_kvStore kvFields ;;
           cs <- load (collectionsFile s0) (collections s0) ;;
           match cs with
           | None => ret None
           | Some csFields =>
               _ <- set_data_collections csFields ;;
               _ <- set_connected true ;;
               ret (Some (VBool true))
           end
       end)
      (ret (Some (VBool false))) in
  match body s with
  | (Ok (Some v), s') => Some (Ok v, s')
  | (Ok None, _) => None
  | (Throw e, s') => Some (Throw e, s')
  end.

(** [close()]. *)
Definition close : M value :=
  try_catch
    (_ <- _saveData ;;
     _ <- set_connected false ;;
     ret (VBool true))
    (ret (VBool false)).

(** [createCollection(name)]. *)
Definition createCollection (name : string) : M value :=
  _ <- _ensureConnected ;;
  try_catch
    (let normalizedName := normalizeName name in
     s <- get_s ;;
     _ <- (if negb (truthy (get_prop (VObj (collections s)) normalizedName))
           then
             _ <- set_data_collections
                    (set_field normalizedName (VArr []) (collections s)) ;;
             _ <- _saveData ;;
             ret ()
           else ret ()) ;;
     ret (VBool true))
    (ret (VBool false)).

(** [docs.findIndex(doc => doc.id === id || doc._id === id)], counting
    from [i]; [None] is [-1]. *)
Fixpoint findIndex_id (id : value) (docs : list value) (i : nat)
  : M (option nat) :=
  match docs with
  | [] => ret None
  | doc :: rest =>
      a <- member doc "id" ;;
      if strict_eq a id then ret (Some i)
      else
        b <- member doc "_id" ;;
        if strict_eq b id then ret (Some i)
        else findIndex_id id rest (S i)
  end.

(** The document [insert] stores: the copy of [document] with its id and
    both timestamps. *)
Definition with_id (e : env) (document : value) : list (string * value) :=
  let docWithId := assign [] document in
  if negb (truthy (get_prop (VObj docWithId) "id"))
     && negb (truthy (get_prop (VObj docWithId) "_id"))
  then set_field "id" (VStr (fresh_id e)) docWithId
  else docWithId.

Definition stamped (e : env) (document : value) : list (string * value) :=
  set_field "updated_at" (VNum (now e))
    (set_field "created_at" (VNum (now e)) (with_id e document)).

(** [insert(collection, document)]. *)
Definition insert (e : env) (collection : string) (document : value)
  : M value :=
  _ <- _ensureConnected ;;
  try_catch
    (let normalizedName := normalizeName collection in
     _ <- createCollection normalizedName ;;
     let docWithId := with_id e document in
     let id := or_else (get_prop (VObj docWithId) "id")
                       (get_prop (VObj docWithId) "_id") in
     s <- get_s ;;
     stored <- member (VObj (collections s)) normalizedName ;;
     docs <- as_array stored ;;
     existingIndex <- findIndex_id id docs 0 ;;
     _ <- set_data_collections
            (set_field normalizedName
               (VArr (match existingIndex with
                      | Some i => <[i := VObj (stamped e document)]> docs
                      | None => docs ++ [VObj (stamped e document)]
                      end))
               (collections s)) ;;
     _ <- _saveData ;;
     ret (VBool true))
    (ret (VBool false)).

(** [docs.find(doc => doc.id === id || doc._id === id) || null]. *)
Fixpoint find_id (id : value) (docs : list value) : M value :=
  match docs with
  | [] => ret VNull
  | doc :: rest =>
      a <- member doc "id" ;;
      if strict_eq a id then ret (or_else doc VNull)
      else
        b <- member doc "_id" ;;
        if strict_eq b id then ret (or_else doc VNull)
        else find_id id rest
  end.

(** [findOne(collection, query)]. *)
Definition findOne (collection : string) (query : value) : M value :=
  _ <- _ensureConnected ;;
  try_catch
    (let normalizedName := normalizeName collection in
     s <- get_s ;;
     let stored := get_prop (VObj (collections s)) normalizedName in
     if negb (truthy stored) then ret VNull
     else
       a <- member query "id" ;;
       id <- (if truthy a then ret a else member query "_id") ;;
       docs <- as_array stored ;;
       if truthy id then find_id id docs
       else ret (or_else
                   (default VUndefined
                      (head (filter (λ doc, matches doc query = true) docs)))
                   VNull))
    (ret VNull).

(** [find(collection, query)], as the list of the documents found. *)
Definition find_docs (collection : string) (query : value)
  : M (list value) :=
  _ <- _ensureConnected ;;
  try_catch
    (let normalizedName := normalizeName collection in
     s <- get_s ;;
     let stored := get_prop (VObj (collections s)) normalizedName in
     if negb (truthy stored) then ret []
     else if negb (truthy query) || bool_decide (enum_keys query = [])
     then
       match stored with
       | VArr items => ret items
       | VStr str => ret (VStr <$> Str.chars str)
       | _ => throw TypeError
       end
     else
       docs <- as_array stored ;;
       ret (filter (λ doc, matches doc query = true) docs))
    (ret []).

Definition find (collection : string) (query : value) : M value :=
  docs <- find_docs collection query ;; ret (VArr docs).

(** [{ ...stored, ...update, updated_at: now }]. *)
Definition updated_doc (now : Z) (doc upd : value) : value :=
  VObj (set_field "updated_at" (VNum now) (assign (assign [] doc) upd)).

(** The loop of [update] over the documents found. *)
Fixpoint update_loop (now : Z) (normalizedName : string) (upd : value)
    (docs : list value) (updatedCount : Z) : M Z :=
  match docs with
  | [] => ret updatedCount
  | doc :: rest =>
      a <- member doc "id" ;;
      id <- (if truthy a then ret a else member doc "_id") ;;
      s <- get_s ;;
      stored <- member (VObj (collections s)) normalizedName ;;
      current <- as_array stored ;;
      index <- findIndex_id id current 0 ;;
      match index with
      | Some i =>
          _ <- set_data_collections
                 (set_field normalizedName
                    (VArr (<[i := updated_doc now
                                    (default VUndefined (current !! i)) upd]>
                             current))
                    (collections s)) ;;
          update_loop now normalizedName upd rest (updatedCount + 1)
      | None => update_loop now normalizedName upd rest updatedCount
      end
  end.

(** [update(collection, query, update)]. *)
Definition update (e : env) (collection : string) (query upd : value)
  : M value :=
  _ <- _ensureConnected ;;
  try_catch
    (let normalizedName := normalizeName collection in
     s <- get_s ;;
     if negb (truthy (get_prop (VObj (collections s)) normalizedName))
     then ret (VNum 0)
     else
       docs <- find_docs collection query ;;
       if bool_decide (docs = []) then ret (VNum 0)
       else
         n <- update_loop (now e) normalizedName upd docs 0 ;;
         _ <- (if 0 <? n then _ <- _saveData ;; ret () else ret ()) ;;
         ret (VNum n))
    (ret (VNum 0)).

(** *** The key/value methods *)

(** The names every object inherits from [Object.prototype]. *)
Definition inherited : list string :=
  ["constructor"; "__defineGetter__"; "__defineSetter__"; "hasOwnProperty";
   "__lookupGetter__"; "__lookupSetter__"; "isPrototypeOf";
   "propertyIsEnumerable"; "toString"; "valueOf"; "__proto__";
   "toLocaleString"].

(** [key in obj] for an object given by its own properties. *)
Definition has_property (key : string) (fields : list (string * value))
  : bool :=
  bool_decide (is_Some (lookup_field key fields))
  || bool_decide (key ∈ inherited).

(** [set(key, value)].  The inner [None] marks the key ["__proto__"],
    where the assignment sets the prototype of the store instead of a
    property. *)
Definition set (key : string) (v : value) : M (option value) :=
  _ <- _ensureConnected ;;
  try_catch
    (if decide (key = "__proto__") then ret None
     else
       s <- get_s ;;
       _ <- set_kvStore (set_field key v (kvStore s)) ;;
       _ <- _saveData ;;
       ret (Some (VBool true)))
    (ret (Some (VBool false))).

(** [get(key)].  The inner [None] marks a name the store does not hold
    and inherits: it reads as a function, or as the prototype. *)
Definition get (key : string) : M (option value) :=
  _ <- _ensureConnected ;;
  try_catch
    (s <- get_s ;;
     match lookup_field key (kvStore s) with
     | Some x => ret (Some (or_else x VNull))
     | None =>
         if bool_decide (key ∈ inherited) then ret None
         else ret (Some VNull)
     end)
    (ret (Some VNull)).

(** [has(key)]. *)
Definition has (key : string) : M value :=
  _ <- _ensureConnected ;;
  try_catch
    (s <- get_s ;; ret (VBool (has_property key (kvStore s))))
    (ret (VBool false)).

(** [delete(key)]. *)
Definition delete (key : string) : M value :=
  _ <- _ensureConnected ;;
  try_catch
    (s <- get_s ;;
     if has_property key (kvStore s) then
       _ <- set_kvStore (delete_field key (kvStore s)) ;;
       _ <- _saveData ;;
       ret (VBool true)
     else ret (VBool false))
    (ret (VBool false)).

End JSONAdapter.

(* ===================================================================== *)
(** ** [src/storage-engine.js] *)
(* ===================================================================== *)

Module StorageEngine.
Import JS.

(** The engine: its adapter (always a [FileStoreAdapter]) and the [Map] of
    the collections it knows, keyed by name. *)
Record state : Type := State {
  adapter : FileStoreAdapter.state;
  collections : list (value * value)
}.

Definition map_has (k : value) (m : list (value * value)) : bool :=
  existsb (λ kv, strict_eq k kv.1) m.

Fixpoint map_set (k x : value) (m : list (value * value))
  : list (value * value) :=
  match m with
  | [] => [(k, x)]
  | (k', y) :: r =>
      if strict_eq k k' then (k, x) :: r else (k', y) :: map_set k x r
  end.

(** [new StorageEngine(config)]. *)
Definition create (root : Fs.path) (m : Fs.t) : state :=
  {| adapter := FileStoreAdapter.create root m; collections := [] |}.

(** Running a method of the adapter inside the engine. *)
Definition on_adapter {A} (m : FileStoreAdapter.M A) (s : state)
  : res A * state :=
  let '(r, a) := m (adapter s) in
  (r, {| adapter := a; collections := collections s |}).

(** [initialize()]. *)
Definition initialize (s : state) : res unit * state :=
  let '(_, s1) := on_adapter FileStoreAdapter.connect s in
  match on_adapter FileStoreAdapter.getCollections s1 with
  | (Ok cs, s2) =>
      (Ok (),
       {| adapter := adapter s2;
          collections :=
            fold_left
              (λ acc collection,
                 map_set (get_prop collection "name") collection acc)
              (own_entries cs).*2 (collections s2) |})
  | (Throw e, s2) => (Throw e, s2)
  end.

Definition set (key : string) (v : value) (s : state) : res value * state :=
  on_adapter (FileStoreAdapter.set key v) s.

Definition get (key : string) (s : state) : res value * state :=
  on_adapter (FileStoreAdapter.get key) s.

Definition has (key : string) (s : state) : res value * state :=
  on_adapter (FileStoreAdapter.has key) s.

Definition delete (key : string) (s : state) : res value * state :=
  on_adapter (FileStoreAdapter.delete key) s.

(** [createCollection(name)]. *)
Definition createCollection (name : string) (s : state)
  : res value * state :=
  match on_adapter (FileStoreAdapter.createCollection name) s with
  | (Ok result, s1) =>
      if truthy result then
        (Ok result,
         {| adapter := adapter s1;
            collections :=
              map_set (VStr name) (VObj [("name", VStr name)])
                      (collections s1) |})
      else (Ok result, s1)
  | r => r
  end.

(** [insert(collection, document)]. *)
Definition insert (e : env) (collection : string) (document : value)
    (s : state) : res value * state :=
  let go := on_adapter (FileStoreAdapter.insert e collection document) in
  if negb (map_has (VStr collection) (collections s)) then
    match createCollection collection s with
    | (Ok _, s1) => go s1
    | r => r
    end
  else go s.

Definition findOne (collection : string) (query : value) (s : state)
  : res value * state :=
  if negb (map_has (VStr collection) (collections s)) then (Ok VNull, s)
  else on_adapter (FileStoreAdapter.findOne collection query) s.

Definition find (collection : string) (query : value) (s : state)
  : res value * state :=
  if negb (map_has (VStr collection) (collections s)) then (Ok (VArr []), s)
  else on_adapter (FileStoreAdapter.find collection query) s.

Definition update (e : env) (collection : string) (query upd : value)
    (s : state) : res value * state :=
  if negb (map_has (VStr collection) (collections s)) then (Ok (VNum 0), s)
  else on_adapter (FileStoreAdapter.update e collection query upd) s.

Definition deleteFrom (collection : string) (query : value) (s : state)
  : res value * state :=
  if negb (map_has (VStr collection) (collections s)) then (Ok (VNum 0), s)
  else on_adapter (FileStoreAdapter.deleteFrom collection query) s.

(** [close()]. *)
Definition close (s : state) : res unit * state :=
  let '(_, s1) := on_adapter FileStoreAdapter.close s in
  (Ok (), {| adapter := adapter s1; collections := [] |}).

End StorageEngine.

(* ===================================================================== *)
(** ** [index.js] *)
(* ===================================================================== *)

Module HyperDB.
Import JS.

(** The coordinator with the default configuration: the cache and the
    storage engine, no security, no cloud or real-time synchronisation. *)
Record state : Type := State {
  cache : MemoryCache.t;
  storage : StorageEngine.state
}.

(** [new HyperDB(options)], the asynchronous [_loadInitialData()]
    included: an initialisation that fails is logged and forgotten. *)
Definition create (root : Fs.path) (m : Fs.t) : state :=
  {| cache := MemoryCache.create None None;
     storage := (StorageEngine.initialize (StorageEngine.create root m)).2 |}.

(** [set(key, value)]. *)
Definition set (e : env) (key : string) (v : value) (h : state)
  : res value * state :=
  let secureValue := v in
  (* Update memory cache *)
  let c := (MemoryCache.set (now e) key v None (cache h)).2 in
  (* Update storage *)
  let '(result, st) := StorageEngine.set key secureValue (storage h) in
  (result, {| cache := c; storage := st |}).

(** [get(key)]. *)
Definition get (e : env) (key : string) (h : state) : res value * state :=
  let '(cachedValue, c) := MemoryCache.get (now e) key (cache h) in
  if negb (strict_eq cachedValue VUndefined) then
    (Ok cachedValue, {| cache := c; storage := storage h |})
  else
    match StorageEngine.get key (storage h) with
    | (Ok v, st) =>
        let decryptedValue := v in
        let c1 :=
          if negb (strict_eq decryptedValue VNull)
          then (MemoryCache.set (now e) key decryptedValue None c).2
          else c in
        (Ok decryptedValue, {| cache := c1; storage := st |})
    | (Throw x, st) => (Throw x, {| cache := c; storage := st |})
    end.

(** [has(key)]. *)
Definition has (e : env) (key : string) (h : state) : res value * state :=
  let '(hit, c) := MemoryCache.has (now e) key (cache h) in
  if hit then (Ok (VBool true), {| cache := c; storage := storage h |})
  else
    let '(r, st) := StorageEngine.has key (storage h) in
    (r, {| cache := c; storage := st |}).

(** [delete(key)]. *)
Definition delete (key : string) (h : state) : res value * state :=
  (* Remove from cache *)
  let c := (MemoryCache.delete key (cache h)).2 in
  (* Remove from storage *)
  let '(result, st) := StorageEngine.delete key (storage h) in
  (result, {| cache := c; storage := st |}).

(** [close()]. *)
Definition close (h : state) : res unit * state :=
  let '(_, st) := StorageEngine.close (storage h) in
  (Ok (), {| cache := MemoryCache.clear (cache h); storage := st |}).

End HyperDB.

(* ===================================================================== *)
(** ** Scan and match, as the specification words it *)
(* ===================================================================== *)

Module ScanSpec.
Import JS Utils Eff FileStoreAdapter.

(** Reading and parsing every document file of a directory listing. *)
Fixpoint read_docs (m : Fs.t) (dir : Fs.path) (files : list string)
  : res (list value) :=
  match files with
  | [] => Ok []
  | file :: rest =>
      if Str.endsWith ".json" file then
        match Fs.readFileSync (Fs.join dir file) m with
        | Ok t =>
            match JSON.parse t with
            | Some doc =>
                match read_docs m dir rest with
                | Ok docs => Ok (doc :: docs)
                | Throw e => Throw e
                end
            | None => Throw SyntaxError
            end
        | Throw e => Throw e
        end
      else read_docs m dir rest
  end.

(** The full-scan path for one document: read every document of the
    collection and take the first one the matcher accepts. *)
Definition findOne_by_scan (collection : string) (query : value) : M value :=
  _ <- _ensureConnected ;;
  try_catch
    (let normalizedName := normalizeName collection in
     s <- get_s ;;
     if negb (set_has (VStr normalizedName) (collections s)) then ret VNull
     else
       let collectionDir := Fs.join (collectionsDir s) normalizedName in
       files <- fs_read (Fs.readdirSync collectionDir) ;;
       docs <- fs_read (λ m, read_docs m collectionDir files) ;;
       ret (default VNull
              (head (filter (λ doc, matches doc query = true) docs))))
    (ret VNull).

End ScanSpec.

(* ===================================================================== *)
(** ** The query matcher as the specification words it *)
(* ===================================================================== *)

Module MatcherSpec.
Import JS.

(** Walking a document through successive nested-field lookups: the walk
    fails as soon as an intermediate value is absent. *)
Inductive walks_to : value → list string → value → Prop :=
| walk_done v : walks_to v [] v
| walk_step v part rest w :
    nullish v = false →
    walks_to (get_prop v part) rest w →
    walks_to v (part :: rest) w.

(** One query key matches the document. *)
Definition key_matches (doc query : value) (key : string) : Prop :=
  if Str.includes "." key
  then ∃ w, walks_to doc (Str.split "." key) w
            ∧ strict_eq w (get_prop query key) = true
  else strict_eq (get_prop doc key) (get_prop query key) = true.

End MatcherSpec.

(* ===================================================================== *)
(** ** Notions the statements use *)
(* ===================================================================== *)

Module CacheSpec.
Import JS MemoryCache.

(** The two maps of a cache hold the same keys, in the same order, and no
    key twice. *)
Definition in_step (c : t) : Prop :=
  (cache c).*1 = (expiry c).*1 ∧ NoDup (cache c).*1.

End CacheSpec.

Module CacheRuns.
Import JS MemoryCache.



(** The entries [cleanup] removes at time [now]. *)
Definition stale (now : Z) (e : option Z) : bool :=
  match e with
  | Some t0 => t0 <? now
  | None => false
  end.

End CacheRuns.

Module AdapterSpec.
Import JS Utils Eff FileStoreAdapter.

(** The error of [_ensureConnected]. *)
Definition not_connected : exn :=
  Error "Not connected to FileStore database".

(** The adapter states in which no connection is open: a new adapter, an
    adapter after [close()], and either of them after a [connect()] that
    failed. *)
Inductive disconnected : state → Prop :=
| never_connected root m : disconnected (create root m)
| closed s : disconnected (close s).2
| connect_failed s :
    disconnected s →
    (connect s).1 = Ok (VBool false) →
    disconnected (connect s).2.

(** A computation that leaves the [connected] flag alone. *)
Definition keeps_flag {A} (m : M A) : Prop :=
  ∀ s, connected (m s).2 = connected s.

(** Either the flag is kept or the call answered [true]. *)
Definition keeps_or_true (m : M value) : Prop :=
  ∀ s, connected (m s).2 = connected s ∨ (m s).1 = Ok (VBool true).

(** The file of a key that holds no ['/']. *)
Definition key_file (s : state) (key : string) : Fs.path :=
  keyValueDir s ++ [key +:+ ".json"].

(** The directory of a collection. *)
Definition collection_dir (s : state) (collection : string) : Fs.path :=
  Fs.join (collectionsDir s) (normalizeName collection).

(** The id [insert] files the document under. *)
Definition insert_id (e : env) (document : value) : value :=
  or_else (get_prop (VObj (with_id e document)) "id")
          (get_prop (VObj (with_id e document)) "_id").

(** The file of a document whose id string holds no ['/']. *)
Definition doc_file (s : state) (collection : string) (id : value)
  : Fs.path :=
  collection_dir s collection ++ [to_string id +:+ ".json"].


End AdapterSpec.

Module JSONAdapterSpec.
Import JS Utils Eff JSONAdapter.



End JSONAdapterSpec.

Module HyperDBSpec.
Import JS HyperDB.

(** What the file the adapter of the coordinator keeps a key in holds. *)
Definition stored_at (h : state) (key : string) : option JSON.text :=
  let a := StorageEngine.adapter (storage h) in
  Fs.file_at (FileStoreAdapter.disk a)
    (Fs.join (FileStoreAdapter.keyValueDir a) (key +:+ ".json")).

End HyperDBSpec.

Module DocumentSpec.
Import JS.

(** The document brings an id of its own: [id] or [_id] of the copy
    [{ ...document }] is truthy. *)
Definition brings_id (document : value) : bool :=
  truthy (get_prop (VObj (assign [] document)) "id")
  || truthy (get_prop (VObj (assign [] document)) "_id").

(** What the specification has [insert] store, property by property: the
    properties of the inserted document, an [id] generated for a document
    that brings none, and the time of the insert in both timestamps.
    Nothing of a document stored before enters. *)
Definition inserted_field (e : env) (document : value) (k : string)
  : option value :=
  if decide (k = "created_at" ∨ k = "updated_at") then Some (VNum (now e))
  else if decide (k = "id") then
    if brings_id document then lookup_field k (assign [] document)
    else Some (VStr (fresh_id e))
  else lookup_field k (assign [] document).

(** The same property as a JSON file holds it: a property whose value is
    [undefined] is left out. *)
Definition inserted_json_field (e : env) (document : value) (k : string)
  : option value :=
  inserted_field e document k ≫= JSON.roundtrip.

End DocumentSpec.

(* ===================================================================== *)
(** ** Sample states *)
(* ===================================================================== *)

Module Samples.
Import JS.

(** A cache of capacity one that holds the key [""] (the empty string). *)
Definition full_empty_key : MemoryCache.t :=
  (MemoryCache.set 0 "" (VNum 1) None (MemoryCache.create (Some 1) None)).2.

Module F := FileStoreAdapter.
Module J := JSONAdapter.

(** Two users stored through the adapter at time 100. *)
Definition two_users : F.state :=
  let s1 := (F.connect (F.create ["data"] Fs.empty)).2 in
  let s2 := (F.insert (Env 100 "g1") "users"
               (VObj [("id", VStr "u1"); ("age", VNum 30)]) s1).2 in
  (F.insert (Env 100 "g2") "users"
     (VObj [("id", VStr "u2"); ("age", VNum 20)]) s2).2.

(** One document with a nested field, stored at time 100. *)
Definition nested_user : F.state :=
  (F.insert (Env 100 "g1") "users"
     (VObj [("id", VStr "u1"); ("a", VObj [("b", VNum 1)])])
     (F.connect (F.create ["data"] Fs.empty)).2).2.

(** The adapter connected on an empty disk, holding one user stored at
    time 100. *)
Definition one_user : J.state :=
  match J.connect (J.create ["data"] Fs.empty) with
  | Some (_, s) =>
      (J.insert (Env 100 "g1") "users"
         (VObj [("id", VStr "u1"); ("a", VObj [("b", VNum 1)])]) s).2
  | None => J.create ["data"] Fs.empty
  end.


Definition u1_nested_at_100 : value :=
  VObj [("id", VStr "u1"); ("a", VObj [("b", VNum 1)]);
        ("created_at", VNum 100); ("updated_at", VNum 100)].

End Samples.

(* ===================================================================== *)
(** * Theorems *)
(* ===================================================================== *)

Section Matcher.
Import JS Utils MatcherSpec.


Lemma strict_eq_sym a b : strict_eq a b = strict_eq b a.
Proof.
  destruct a, b; simpl; try reflexivity.
  - apply bool_decide_ext; split; congruence.
  - apply Z.eqb_sym.
  - apply bool_decide_ext; split; congruence.
Qed.

Lemma walk_parts_spec parts v w :
  walk_parts parts v = Some w ↔ walks_to v parts w.
Proof.
  revert v. induction parts as [|p ps IH]; intros v; simpl.
  - split.
    + intros [= ->]. constructor.
    + inversion 1. reflexivity.
  - destruct (nullish v) eqn:Hn.
    + split; [discriminate|]. inversion 1. congruence.
    + rewrite IH. split.
      * intros H. by constructor.
      * by inversion 1.
Qed.

Lemma matches_keys_spec doc query keys :
  matches_keys doc query keys = true
  ↔ Forall (key_matches doc query) keys.
Proof.
  induction keys as [|key rest IH]; simpl.
  - split; [constructor | reflexivity].
  - rewrite Forall_cons, <- IH. unfold key_matches.
    destruct (Str.includes "." key).
    + destruct (walk_parts (Str.split "." key) doc) as [v|] eqn:Hw.
      * destruct (strict_eq v (get_prop query key)) eqn:He; simpl.
        -- split; [|tauto]. intros H. split; [|exact H].
           exists v. split; [by apply walk_parts_spec | exact He].
        -- split; [discriminate|]. intros [(w & Hw' & He') _].
           apply walk_parts_spec in Hw'. congruence.
      * split; [discriminate|]. intros [(w & Hw' & _) _].
        apply walk_parts_spec in Hw'. congruence.
    + rewrite (strict_eq_sym (get_prop query key)).
      destruct (strict_eq (get_prop doc key) (get_prop query key)); simpl.
      * tauto.
      * split; [discriminate|]. intros [? _]. discriminate.
Qed.

(** C4. For a document and a query that are objects (any truthy value, in
    fact), [matches] answers [true] exactly when every key of the query
    matches the document, each key by strict equality on the field or, for
    a dotted key, on the value reached along the path; and the empty query
    matches every document object. *)
Theorem matches_all_keys :
  (∀ doc query, truthy doc = true → truthy query = true →
     (matches doc query = true
      ↔ ∀ key, key ∈ enum_keys query → key_matches doc query key))
  ∧ (∀ fields, matches (VObj fields) (VObj []) = true).
Proof.
  split.
  - intros doc query Hd Hq. unfold matches. rewrite Hd, Hq. simpl.
    rewrite matches_keys_spec. apply Forall_forall.
  - reflexivity.
Qed.

Lemma matches_all_keys_witness :
  let doc := VObj [("a", VObj [("b", VNum 1)])] in
  let query := VObj [("a.b", VNum 1)] in
  truthy doc = true
  ∧ truthy query = true
  ∧ (matches doc query = true
     ↔ ∀ key, key ∈ enum_keys query → key_matches doc query key).
Proof.
  intros doc query. split_and!; [reflexivity | reflexivity |].
  apply (proj1 matches_all_keys); reflexivity.
Defined.

End Matcher.

(* ===================================================================== *)
(** ** Property lists *)
(* ===================================================================== *)

Section Fields.
Import JS.
Context {A : Type}.
Implicit Types (l : list (string * A)) (k : string).

Lemma lookup_set_field_eq k (x : A) l :
  lookup_field k (set_field k x l) = Some x.
Proof.
  induction l as [|[k' y] r IH]; simpl.
  - by rewrite decide_True.
  - destruct (decide (k' = k)) as [->|Hne]; simpl.
    + by rewrite decide_True.
    + by rewrite decide_False.
Qed.

Lemma lookup_set_field_ne k k' (x : A) l :
  k ≠ k' → lookup_field k' (set_field k x l) = lookup_field k' l.
Proof.
  intros Hne. induction l as [|[k0 y] r IH]; simpl.
  - by rewrite decide_False.
  - destruct (decide (k0 = k)) as [->|Hk]; simpl.
    + by rewrite !decide_False.
    + destruct (decide (k0 = k')); [done | exact IH].
Qed.

Lemma lookup_delete_field_eq k l : lookup_field k (delete_field k l) = None.
Proof.
  unfold delete_field. induction l as [|[k' y] r IH]; [done|].
  rewrite filter_cons. simpl. destruct (decide (k' ≠ k)) as [Hne|Heq].
  - simpl. by rewrite decide_False.
  - exact IH.
Qed.

Lemma lookup_delete_field_ne k k' l :
  k ≠ k' → lookup_field k' (delete_field k l) = lookup_field k' l.
Proof.
  intros Hne. unfold delete_field.
  induction l as [|[k0 y] r IH]; [done|].
  rewrite filter_cons. simpl. destruct (decide (k0 ≠ k)) as [Hk|Hk].
  - simpl. destruct (decide (k0 = k')); [done | exact IH].
  - apply dec_stable in Hk. subst k0. by rewrite decide_False.
Qed.

Lemma lookup_field_is_Some k l : is_Some (lookup_field k l) ↔ k ∈ l.*1.
Proof.
  induction l as [|[k' y] r IH]; simpl.
  - split; [by intros [? ?] | by intros ?%elem_of_nil].
  - rewrite elem_of_cons. destruct (decide (k' = k)) as [->|Hne].
    + split; [by left | by eexists].
    + rewrite IH. split; [by right | by intros [?|?]; [congruence|]].
Qed.

Lemma lookup_field_None k l : lookup_field k l = None ↔ k ∉ l.*1.
Proof. rewrite <- lookup_field_is_Some, eq_None_not_Some. done. Qed.

Lemma keys_set_field k (x : A) l :
  (set_field k x l).*1 = if decide (k ∈ l.*1) then l.*1 else l.*1 ++ [k].
Proof.
  induction l as [|[k' y] r IH]; [done|]. csimpl.
  destruct (decide (k' = k)) as [->|Hne]; csimpl.
  - rewrite decide_True; [done | by left].
  - rewrite IH. destruct (decide (k ∈ r.*1)) as [Hin|Hin].
    + rewrite decide_True; [done | by right].
    + rewrite decide_False; [done|].
      rewrite elem_of_cons. intros [?|?]; [congruence | done].
Qed.

Lemma keys_delete_field k l :
  (delete_field k l).*1 = filter (λ k', k' ≠ k) l.*1.
Proof.
  unfold delete_field. induction l as [|[k' y] r IH]; [done|].
  csimpl. rewrite !filter_cons. csimpl. destruct (decide (k' ≠ k)); csimpl.
  - by rewrite IH.
  - exact IH.
Qed.

Lemma delete_field_absent k l : k ∉ l.*1 → delete_field k l = l.
Proof.
  unfold delete_field. induction l as [|[k' y] r IH]; [done|].
  csimpl. rewrite not_elem_of_cons. intros [Hne Hr].
  rewrite filter_cons. simpl. rewrite decide_True by congruence.
  by rewrite IH.
Qed.

Lemma lookup_field_elem k (x : A) l :
  lookup_field k l = Some x → (k, x) ∈ l.
Proof.
  induction l as [|[k' y] r IH]; simpl; [done|].
  destruct (decide (k' = k)) as [->|Hne].
  - intros [= ->]. by left.
  - intros H. right. by apply IH.
Qed.

Lemma elem_lookup_field k (x : A) l :
  NoDup l.*1 → (k, x) ∈ l → lookup_field k l = Some x.
Proof.
  induction l as [|[k' y] r IH]; csimpl.
  - by intros _ ?%elem_of_nil.
  - rewrite NoDup_cons, elem_of_cons. intros [Hk Hnd] [Heq|Hin].
    + injection Heq as -> ->. by rewrite decide_True.
    + destruct (decide (k' = k)) as [->|Hne]; [|by apply IH].
      exfalso. apply Hk. apply list_elem_of_fmap. by exists (k, x).
Qed.



Lemma NoDup_keys_set_field k (x : A) l :
  NoDup l.*1 → NoDup (set_field k x l).*1.
Proof.
  intros Hnd. rewrite keys_set_field. destruct (decide (k ∈ l.*1)); [done|].
  apply NoDup_app. split_and!; [done | | apply NoDup_singleton].
  intros y Hy ->%list_elem_of_singleton. done.
Qed.

Lemma NoDup_keys_delete_field k l :
  NoDup l.*1 → NoDup (delete_field k l).*1.
Proof. intros Hnd. rewrite keys_delete_field. by apply NoDup_filter. Qed.

End Fields.

(* ===================================================================== *)
(** ** The expiring cache *)
(* ===================================================================== *)

Module CacheFacts.
Import JS MemoryCache CacheSpec Samples.

Lemma map_has_true {A} k (m : list (string * A)) :
  map_has k m = true ↔ k ∈ m.*1.
Proof.
  unfold map_has. rewrite bool_decide_eq_true. apply lookup_field_is_Some.
Qed.

Lemma map_has_false {A} k (m : list (string * A)) :
  map_has k m = false ↔ k ∉ m.*1.
Proof.
  unfold map_has. rewrite bool_decide_eq_false.
  by rewrite lookup_field_is_Some.
Qed.

Lemma delete_cache key c :
  cache (delete key c).2 = delete_field key (cache c).
Proof.
  unfold delete. destruct (map_has key (cache c)) eqn:Hh; [done|]. simpl.
  apply map_has_false in Hh. by rewrite delete_field_absent.
Qed.

Lemma delete_in_step key c : in_step c → in_step (delete key c).2.
Proof.
  intros [Hk Hnd]. unfold delete.
  destruct (map_has key (cache c)); [|done]. split; simpl.
  - by rewrite !keys_delete_field, Hk.
  - by apply NoDup_keys_delete_field.
Qed.

Lemma evict_in_step c : in_step c → in_step (_evictOldest c).
Proof.
  intros H. unfold _evictOldest.
  destruct (oldest_scan (expiry c)).1 as [k|]; [|done].
  destruct (truthy (VStr k)); [by apply delete_in_step | done].
Qed.

Lemma set_in_step now key v ttl_arg c :
  in_step c → in_step (set now key v ttl_arg c).2.
Proof.
  intros H. unfold set.
  match goal with |- context [if ?b then _evictOldest c else c] =>
    set (c1 := if b then _evictOldest c else c) end.
  assert (in_step c1) as [Hk Hnd].
  { subst c1. destruct (_ && _); [by apply evict_in_step | done]. }
  split; simpl.
  - by rewrite !keys_set_field, Hk.
  - by apply NoDup_keys_set_field.
Qed.

Lemma cleanup_in_step now c : in_step c → in_step (cleanup now c).
Proof.
  unfold cleanup. generalize (expiry c) at 1 as entries. intros entries.
  revert c. induction entries as [|e r IH]; intros c H; [done|].
  simpl. apply IH. destruct (e.2 <? now); [by apply delete_in_step | done].
Qed.

Lemma step_in_step c call : in_step c → in_step (step c call).
Proof.
  destruct call as [now o]. intros H. destruct o; simpl.
  - by apply set_in_step.
  - unfold get. destruct (negb _); [done|].
    destruct (expired _ _); [|done].
    by apply (delete_in_step key c).
  - unfold has. destruct (negb _); [done|].
    destruct (expired _ _); [|done]. by apply delete_in_step.
  - by apply delete_in_step.
  - split; [done | apply NoDup_nil_2].
  - by apply cleanup_in_step.
Qed.

Lemma run_in_step calls c : in_step c → in_step (run calls c).
Proof.
  unfold run. revert c. induction calls as [|call r IH]; intros c H; [done|].
  simpl. by apply IH, step_in_step.
Qed.

(** C10. In every state reached from a new cache by calls of [set], [get],
    [has], [delete], [clear] and [cleanup], the value map and the expiry map
    have the same keys (in the same order), each key once: no value lacks
    its expiry and no expiry is an orphan. *)
Theorem cache_expiry_same_keys opt_maxSize opt_ttl calls :
  let c := run calls (create opt_maxSize opt_ttl) in
  (cache c).*1 = (expiry c).*1
  ∧ NoDup (expiry c).*1
  ∧ ∀ k, is_Some (lookup_field k (cache c))
         ↔ is_Some (lookup_field k (expiry c)).
Proof.
  simpl.
  assert (in_step (run calls (create opt_maxSize opt_ttl))) as [Hk Hnd].
  { apply run_in_step. split; [done | apply NoDup_nil_2]. }
  split_and!; [done | by rewrite <- Hk |].
  intros k. by rewrite !lookup_field_is_Some, Hk.
Qed.






(** What [set] does at capacity when the scan settles on the key [""]:
    nothing leaves, the new key enters and the cache is one entry over
    [maxSize]. *)
Lemma set_at_capacity_empty_oldest now key v ttl_arg c :
  size c = maxSize c →
  map_has key (cache c) = false →
  (oldest_scan (expiry c)).1 = Some "" →
  let c' := (set now key v ttl_arg c).2 in
  size c' = maxSize c + 1
  ∧ cache c' = cache c ++ [(key, v)].
Proof.
  intros Hsz Hnew Hscan. unfold set. rewrite Hnew.
  replace (maxSize c <=? size c) with true by (symmetry; lia).
  simpl. unfold _evictOldest. rewrite Hscan. simpl.
  apply map_has_false in Hnew.
  assert (set_field key v (cache c) = cache c ++ [(key, v)]) as ->.
  { revert Hnew. generalize (cache c) as l.
    induction l as [|[k x] r IH]; [done|]. csimpl.
    rewrite not_elem_of_cons. intros [Hne Hr].
    rewrite decide_False by congruence. by rewrite IH. }
  split; [|done]. unfold size in *. simpl.
  rewrite length_app. simpl. lia.
Qed.

(** C6, at a stored key that is the empty string.  The cache is at
    capacity and ["a"] is new, yet [set] evicts nothing: both entries are
    present afterwards and the size exceeds [maxSize]. *)
Theorem set_at_capacity_keeps_empty_key :
  size full_empty_key = maxSize full_empty_key
  ∧ map_has "a" (cache full_empty_key) = false
  ∧ let c' := (set 5 "a" (VNum 2) None full_empty_key).2 in
    maxSize c' = 1
    ∧ size c' = 2
    ∧ cache c' = [("", VNum 1); ("a", VNum 2)]
    ∧ expiry c' = [("", 3600000); ("a", 3600005)].
Proof. by vm_compute. Qed.

End CacheFacts.

(* ===================================================================== *)
(** ** Strings and paths *)
(* ===================================================================== *)

Section Paths.

Lemma length_append (s t : string) :
  String.length (s +:+ t) = (String.length s + String.length t)%nat.
Proof. induction s as [|a r IH]; simpl; [done | by rewrite IH]. Qed.

Lemma includes_append c (s t : string) :
  Str.includes c (s +:+ t) = Str.includes c s || Str.includes c t.
Proof.
  induction s as [|a r IH]; simpl; [done|].
  destruct (decide (a = c)); [done | exact IH].
Qed.

Lemma split_no_separator c (s : string) :
  Str.includes c s = false → Str.split c s = [s].
Proof.
  induction s as [|a r IH]; simpl; [done|].
  destruct (decide (a = c)); [done|]. intros H. by rewrite IH.
Qed.

(** A name without ['/'] that is neither empty nor a dot name is one
    component under the directory it is joined to. *)
Lemma join_name (base : Fs.path) (name : string) :
  Str.includes "/" name = false →
  (2 < String.length name)%nat →
  Fs.join base name = base ++ [name].
Proof.
  intros Hsep Hlen. unfold Fs.join. rewrite split_no_separator by done.
  simpl. unfold Fs.join_step.
  rewrite decide_False.
  2:{ intros [-> | ->]; simpl in Hlen; lia. }
  rewrite decide_False; [done|]. intros ->. simpl in Hlen. lia.
Qed.

Lemma join_json (base : Fs.path) (stem : string) :
  Str.includes "/" stem = false →
  Fs.join base (stem +:+ ".json") = base ++ [stem +:+ ".json"].
Proof.
  intros Hsep. apply join_name.
  - rewrite includes_append, Hsep. reflexivity.
  - rewrite length_append. simpl. lia.
Qed.

Lemma writeFileSync_ok (p : Fs.path) (t : JSON.text) (d : Fs.t) :
  p ≠ [] →
  Fs.accepts d p = true →
  Fs.is_dir d (removelast p) = true →
  Fs.is_dir d p = false →
  Fs.writeFileSync p t d = Ok (Fs.put p (Fs.File t) d).
Proof.
  intros Hp Ha Hd Hn. unfold Fs.writeFileSync. destruct p as [|c r]; [done|].
  rewrite Ha, Hd. simpl. unfold Fs.is_dir in Hn. rewrite Ha in Hn.
  by destruct (Fs.nodes d !! (c :: r)) as [[|t']|].
Qed.

Lemma file_at_put (p : Fs.path) (t : JSON.text) (d : Fs.t) :
  Fs.accepts d p = true →
  Fs.file_at (Fs.put p (Fs.File t) d) p = Some t.
Proof.
  intros Ha. unfold Fs.file_at, Fs.put. simpl.
  by rewrite Ha, lookup_insert_eq.
Qed.

Lemma file_at_exists (p : Fs.path) (t : JSON.text) (d : Fs.t) :
  p ≠ [] → Fs.file_at d p = Some t → Fs.existsSync d p = true.
Proof.
  intros Hp. unfold Fs.file_at, Fs.existsSync. destruct p as [|c r]; [done|].
  destruct (Fs.accepts d (c :: r)); [|done].
  destruct (Fs.nodes d !! (c :: r)) as [[|t']|]; [done | | done].
  intros _. by apply bool_decide_eq_true_2.
Qed.

Lemma file_at_read (p : Fs.path) (t : JSON.text) (d : Fs.t) :
  Fs.file_at d p = Some t → Fs.readFileSync p d = Ok t.
Proof.
  unfold Fs.file_at, Fs.readFileSync.
  destruct (Fs.accepts d p); [|done].
  destruct (Fs.nodes d !! p) as [[|t']|]; [done | | done].
  by intros [= ->].
Qed.


End Paths.

(* ===================================================================== *)
(** ** The file-backed adapter *)
(* ===================================================================== *)

Module AdapterFacts.
Import JS Utils Eff FileStoreAdapter AdapterSpec Samples.

(** *** Calls on an adapter that is not connected *)

(** Unfolding the plumbing of the computations. *)
Ltac unfold_m :=
  cbv [bind ret throw try_catch get_s fs_read of_option existsSync
       set_connected set_collections _ensureConnected].

Lemma guard_throws {A} (k : M A) s :
  connected s = false →
  (_ <- _ensureConnected ;; k) s = (Throw not_connected, s).
Proof. intros H. unfold_m. by rewrite H. Qed.

Lemma guard_passes {A} (k : M A) s :
  connected s = true → (_ <- _ensureConnected ;; k) s = k s.
Proof. intros H. unfold_m. by rewrite H. Qed.

Lemma call_not_connected e o s :
  connected s = false → call e o s = (Throw not_connected, s).
Proof.
  intros H. destruct o; simpl;
    try (by apply guard_throws).
  unfold find, bind at 1. unfold find_docs. by rewrite guard_throws.
Qed.

Lemma keeps_ret {A} (a : A) : keeps_flag (ret a).
Proof. done. Qed.

Lemma keeps_throw {A} e : keeps_flag (throw e : M A).
Proof. done. Qed.

Lemma keeps_bind {A B} (m : M A) (f : A → M B) :
  keeps_flag m → (∀ a, keeps_flag (f a)) → keeps_flag (x <- m ;; f x).
Proof.
  intros Hm Hf s. unfold bind. specialize (Hm s).
  destruct (m s) as [[a|e] s']; simpl in *; [|done].
  by rewrite Hf.
Qed.

Lemma keeps_try_catch {A} (body handler : M A) :
  keeps_flag body → keeps_flag handler → keeps_flag (try_catch body handler).
Proof.
  intros Hb Hh s. unfold try_catch. specialize (Hb s).
  destruct (body s) as [[a|e] s']; simpl in *; [done|].
  by rewrite Hh.
Qed.

Lemma keeps_fs_write f : keeps_flag (fs_write f).
Proof. intros s. unfold fs_write. by destruct (f (disk s)). Qed.

Lemma keeps_of_option {A} e (o : option A) : keeps_flag (of_option e o).
Proof. by destruct o. Qed.

Lemma keeps_writeJson p v : keeps_flag (writeJson p v).
Proof.
  unfold writeJson. destruct (JSON.stringify v);
    [apply keeps_fs_write | apply keeps_throw].
Qed.

Lemma keeps_readJson p : keeps_flag (readJson p).
Proof.
  apply keeps_bind; [done|]. intros a. apply keeps_of_option.
Qed.

Lemma keeps_ensure_dir p : keeps_flag (ensure_dir p).
Proof.
  apply keeps_bind; [by apply keeps_bind|].
  intros []; [apply keeps_ret | apply keeps_fs_write].
Qed.

Lemma keeps_ensure_collection_dirs l : keeps_flag (ensure_collection_dirs l).
Proof.
  induction l as [|c r IH]; [done|]. simpl.
  apply keeps_bind; [apply keeps_of_option|]. intros name.
  apply keeps_bind; [done|]. intros s.
  apply keeps_bind; [apply keeps_ensure_dir | done].
Qed.

Lemma keeps_or_true_bind {A} (m : M A) (f : A → M value) :
  keeps_flag m → (∀ a, keeps_or_true (f a)) → keeps_or_true (x <- m ;; f x).
Proof.
  intros Hm Hf s. unfold bind. specialize (Hm s).
  destruct (m s) as [[a|e] s']; simpl in *; [|by left].
  rewrite <- Hm. apply Hf.
Qed.

Lemma connect_keeps_or_true : keeps_or_true connect.
Proof.
  intros s. unfold connect, try_catch.
  match goal with |- context [?body s] =>
    assert (keeps_or_true body) as Hb end.
  { apply keeps_or_true_bind; [done|]. intros s0.
    do 3 (apply keeps_or_true_bind; [apply keeps_ensure_dir|]; intros _).
    apply keeps_or_true_bind; [by apply keeps_bind|]. intros ex.
    apply keeps_or_true_bind.
    - destruct ex; [|apply keeps_writeJson].
      apply keeps_try_catch; [|apply keeps_writeJson].
      apply keeps_bind; [apply keeps_readJson|]. intros arr.
      apply keeps_bind; [apply keeps_of_option|]. intros cs.
      apply keeps_bind; [done|]. intros _.
      apply keeps_ensure_collection_dirs.
    - intros _ s1. by right. }
  specialize (Hb s).
  match goal with |- context [?body s] => destruct (body s) as [[a|e] s'] end;
    simpl in *; [done|].
  destruct Hb as [Hb|Hb]; [by left | done].
Qed.

Lemma disconnected_flag s : disconnected s → connected s = false.
Proof.
  induction 1 as [root m | s | s Hs IH Hfail]; [done | done |].
  destruct (connect_keeps_or_true s) as [H|H]; [congruence|].
  rewrite H in Hfail. discriminate.
Qed.

(** C9. Each of the eleven data operations, called on an adapter that is
    not connected (never connected, closed, or left so by a failed
    [connect()]), throws the "not connected" error to its caller and
    changes nothing; it does not answer through its ordinary return
    value. *)
Theorem not_connected_is_thrown e o s :
  disconnected s →
  call e o s = (Throw not_connected, s).
Proof. intros H. by apply call_not_connected, disconnected_flag. Qed.

Lemma not_connected_is_thrown_witness :
  disconnected (close (connect (create ["data"] Fs.empty)).2).2
  ∧ call (Env 0 "x") (Get "k") (close (connect (create ["data"] Fs.empty)).2).2
    = (Throw not_connected, (close (connect (create ["data"] Fs.empty)).2).2).
Proof.
  split; [apply closed|].
  apply (not_connected_is_thrown (Env 0 "x") (Get "k")). apply closed.
Defined.

(** *** Key/value round trip *)

Lemma serializable_roundtrip v :
  JSON.serializable v = true → JSON.roundtrip v = Some v.
Proof.
  induction v as [| | | | |items IH|fields IH] using value_ind; simpl;
    try done.
  - intros H. do 2 f_equal.
    induction items as [|x r IHr]; [done|]. simpl in *.
    apply andb_true_iff in H as [Hx Hr].
    apply Forall_cons in IH as [IHx IHrest].
    rewrite (IHx Hx). simpl. f_equal. by apply IHr.
  - intros H. do 2 f_equal.
    induction fields as [|[k x] r IHr]; [done|]. simpl in *.
    apply andb_true_iff in H as [Hx Hr].
    apply Forall_cons in IH as [IHx IHrest]. simpl in IHx.
    rewrite (IHx Hx). f_equal. by apply IHr.
Qed.

Lemma set_writes key v v' s :
  connected s = true →
  Fs.is_dir (disk s) (keyValueDir s) = true →
  Str.includes "/" key = false →
  Fs.accepts (disk s) (key_file s key) = true →
  Fs.is_dir (disk s) (key_file s key) = false →
  JSON.roundtrip v = Some v' →
  set key v s
  = (Ok (VBool true),
     with_disk
       (Fs.put (key_file s key) (Fs.File (JSON.JsonText v')) (disk s)) s).
Proof.
  intros Hc Hd Hsep Ha Hn Hv.
  assert (key_file s key ≠ []) as Hp
    by (unfold key_file; by destruct (keyValueDir s)).
  unfold set. rewrite guard_passes by done.
  unfold writeJson, JSON.stringify. rewrite Hv.
  unfold_m. unfold fs_write. simpl.
  rewrite join_json by done. fold (key_file s key).
  rewrite writeFileSync_ok; [reflexivity | done | done | | done].
  unfold key_file. by rewrite removelast_last.
Qed.

Lemma get_reads key v s :
  connected s = true →
  Str.includes "/" key = false →
  Fs.file_at (disk s) (key_file s key) = Some (JSON.JsonText v) →
  get key s = (Ok v, s).
Proof.
  intros Hc Hsep Hf.
  assert (key_file s key ≠ []) as Hp
    by (unfold key_file; by destruct (keyValueDir s)).
  unfold get. rewrite guard_passes by done.
  unfold readJson. unfold_m.
  rewrite join_json by done. fold (key_file s key).
  rewrite (file_at_exists _ _ _ Hp Hf). cbn [negb].
  by rewrite (file_at_read _ _ _ Hf).
Qed.

(** C8, as the code has it.  On a connected adapter whose key/value
    directory exists, for a key without ['/'] whose file name the file
    system accepts and no directory has taken, and a value JSON represents
    exactly, [set] answers [true] and the [get] that follows returns the
    value. *)
Theorem set_then_get key v s :
  connected s = true →
  Fs.is_dir (disk s) (keyValueDir s) = true →
  Str.includes "/" key = false →
  Fs.accepts (disk s) (key_file s key) = true →
  Fs.is_dir (disk s) (key_file s key) = false →
  JSON.serializable v = true →
  ∃ s', set key v s = (Ok (VBool true), s')
        ∧ get key s' = (Ok v, s').
Proof.
  intros Hc Hd Hsep Ha Hn Hv. eexists. split.
  - apply set_writes; [done.. | by apply serializable_roundtrip].
  - apply get_reads; [done | done |]. simpl.
    change (key_file (with_disk _ s) key) with (key_file s key).
    by apply file_at_put.
Qed.

Lemma set_then_get_witness :
  let s := (connect (create ["data"] Fs.empty)).2 in
  let v := VObj [("a", VArr [VNum 1; VNull])] in
  connected s = true
  ∧ Fs.is_dir (disk s) (keyValueDir s) = true
  ∧ Str.includes "/" "k" = false
  ∧ Fs.accepts (disk s) (key_file s "k") = true
  ∧ Fs.is_dir (disk s) (key_file s "k") = false
  ∧ JSON.serializable v = true
  ∧ ∃ s', set "k" v s = (Ok (VBool true), s') ∧ get "k" s' = (Ok v, s').
Proof.
  intros s v. split_and!; [reflexivity.. |].
  apply (set_then_get "k" v s); reflexivity.
Defined.

(** C8 as stated fails at the key ["a/b"]: no directory [keyvalue/a]
    exists, the write fails, [set] answers [false] and [get] finds
    nothing. *)
Lemma set_then_get_separator :
  let s := (connect (create ["data"] Fs.empty)).2 in
  connected s = true
  ∧ JSON.serializable (VNum 1) = true
  ∧ (set "a/b" (VNum 1) s).1 = Ok (VBool false)
  ∧ (get "a/b" (set "a/b" (VNum 1) s).2).1 = Ok VNull
  ∧ (get "a/b" (set "a/b" (VNum 1) s).2).1 ≠ Ok (VNum 1).
Proof. by vm_compute. Qed.

(** *** Finding documents *)

Import ScanSpec.

(** [find] reads every document file and keeps the documents that pass
    its test; it fails exactly when a file cannot be read or parsed. *)
Lemma find_scan_spec dir query files documents s :
  find_scan dir query files documents s
  = match read_docs (disk s) dir files with
    | Ok docs =>
        (Ok (documents ++ filter (λ d, find_keeps query d = true) docs), s)
    | Throw e => (Throw e, s)
    end.
Proof.
  revert documents. induction files as [|file rest IH]; intros documents.
  - simpl. by rewrite app_nil_r.
  - simpl. destruct (Str.endsWith ".json" file); [|apply IH].
    unfold readJson. unfold_m.
    destruct (Fs.readFileSync (Fs.join dir file) (disk s)) as [t|e];
      [|done].
    destruct (JSON.parse t) as [doc|]; [|done].
    destruct (find_keeps query doc) eqn:Hk; rewrite IH;
      destruct (read_docs (disk s) dir rest) as [docs|e]; try done;
      rewrite filter_cons.
    + rewrite decide_True by done. by rewrite <- app_assoc.
    + rewrite decide_False by (by rewrite Hk). done.
Qed.

(** For a query with at least one key, the test of [find] is the
    matcher. *)
Lemma find_keeps_matches query doc :
  truthy query = true → enum_keys query ≠ [] →
  find_keeps query doc = matches doc query.
Proof.
  intros Hq Hk. unfold find_keeps. rewrite Hq. simpl.
  by rewrite bool_decide_eq_false_2.
Qed.

(** The fast path of [findOne] in general: whenever the query names a
    truthy id and the file of that id holds a document, that document is
    the answer; the other fields of the query are never looked at. *)
Lemma findOne_by_id_reads_file collection query doc s :
  let id := or_else (get_prop query "id") (get_prop query "_id") in
  connected s = true →
  set_has (VStr (normalizeName collection)) (collections s) = true →
  nullish query = false →
  truthy id = true →
  Str.includes "/" (to_string id) = false →
  Fs.file_at (disk s) (doc_file s collection id) = Some (JSON.JsonText doc) →
  findOne collection query s = (Ok doc, s).
Proof.
  intros id Hc Hreg Hq Hid Hsep Hf.
  assert (doc_file s collection id ≠ []) as Hp
    by (unfold doc_file; by destruct (collection_dir s collection)).
  unfold findOne. rewrite guard_passes by done.
  unfold id_of, member, readJson. unfold_m. rewrite Hreg, Hq. cbn [negb].
  subst id. unfold or_else in *.
  destruct (truthy (get_prop query "id")); cbv beta iota;
    rewrite Hid, join_json by done;
    fold (collection_dir s collection);
    match goal with |- context [to_string ?i] =>
      fold (doc_file s collection i) end;
    rewrite (file_at_exists _ _ _ Hp Hf);
    by rewrite (file_at_read _ _ _ Hf).
Qed.

(** C5, at a query that names an id and one more field.  [findOne] reads
    the file of the id and returns the document although the matcher
    rejects it; the scan of the same collection finds nothing, and so does
    [find]. *)
Theorem findOne_by_id_skips_matcher :
  let query := VObj [("id", VStr "u1"); ("age", VNum 99)] in
  let u1 := VObj [("id", VStr "u1"); ("age", VNum 30);
                  ("created_at", VNum 100); ("updated_at", VNum 100)] in
  connected two_users = true
  ∧ (findOne "users" query two_users).1 = Ok u1
  ∧ matches u1 query = false
  ∧ (findOne_by_scan "users" query two_users).1 = Ok VNull
  ∧ (find "users" query two_users).1 = Ok (VArr []).
Proof. by vm_compute. Qed.

Lemma find_is_filtered_scan collection query s files docs :
  let dir := Fs.join (collectionsDir s) (normalizeName collection) in
  connected s = true →
  set_has (VStr (normalizeName collection)) (collections s) = true →
  truthy query = true →
  enum_keys query ≠ [] →
  Fs.readdirSync dir (disk s) = Ok files →
  read_docs (disk s) dir files = Ok docs →
  find_docs collection query s
  = (Ok (filter (λ d, matches d query = true) docs), s).
Proof.
  intros dir Hc Hreg Hq Hk Hls Hrd. unfold find_docs.
  rewrite guard_passes by done. unfold_m. rewrite Hreg. cbn [negb].
  fold dir. rewrite Hls, find_scan_spec, Hrd. simpl. do 2 f_equal.
  apply list_filter_iff. intros d. by rewrite find_keeps_matches.
Qed.

(** *** Inserting under an id that is present *)

Lemma name_char_fixed a :
  let b := Str.lower (if name_char_ok a then a else "_"%char) in
  Str.lower (if name_char_ok b then b else "_"%char) = b.
Proof.
  destruct a as [[] [] [] [] [] [] [] []]; reflexivity.
Qed.

Lemma normalizeName_idem name :
  normalizeName (normalizeName name) = normalizeName name.
Proof.
  unfold normalizeName, Str.toLowerCase.
  induction name as [|a r IH]; [done|]. simpl. f_equal; [|exact IH].
  apply name_char_fixed.
Qed.

Lemma is_dir_exists (d : Fs.t) (p : Fs.path) :
  Fs.is_dir d p = true → Fs.existsSync d p = true.
Proof.
  destruct p as [|c r]; [done|]. simpl.
  destruct (Fs.accepts d (c :: r)); [|done]. simpl.
  destruct (Fs.nodes d !! (c :: r)) as [[|t]|]; [|done..]. intros _.
  by apply bool_decide_eq_true_2.
Qed.



Lemma roundtrip_object fields :
  ∃ fields', JSON.roundtrip (VObj fields) = Some (VObj fields').
Proof. by eexists. Qed.





(** The copy [{ ...document }] names each property once. *)
Lemma NoDup_keys_assign (src : value) (dst : list (string * value)) :
  NoDup dst.*1 → NoDup (assign dst src).*1.
Proof.
  unfold assign. generalize (own_entries src) as entries. intros entries.
  revert dst. induction entries as [|[k x] r IH]; intros dst Hnd; [done|].
  simpl. by apply IH, NoDup_keys_set_field.
Qed.

(** The property list [insert] builds, read property by property, is what
    the specification has it store. *)
Lemma stamped_lookup e document k :
  lookup_field k (stamped e document)
  = DocumentSpec.inserted_field e document k.
Proof.
  unfold stamped, with_id, DocumentSpec.inserted_field,
    DocumentSpec.brings_id.
  destruct (decide (k = "created_at" ∨ k = "updated_at")) as [[-> | ->]|Hne].
  - rewrite lookup_set_field_ne by done. apply lookup_set_field_eq.
  - apply lookup_set_field_eq.
  - rewrite !lookup_set_field_ne by (intros <-; tauto).
    destruct (truthy (get_prop (VObj (assign [] document)) "id"));
      destruct (truthy (get_prop (VObj (assign [] document)) "_id"));
      cbn [negb andb orb]; try (by destruct (decide (k = "id"))).
    destruct (decide (k = "id")) as [->|Hk].
    + apply lookup_set_field_eq.
    + by apply lookup_set_field_ne.
Qed.

Lemma NoDup_keys_stamped e document : NoDup (stamped e document).*1.
Proof.
  unfold stamped, with_id. do 2 apply NoDup_keys_set_field.
  destruct (_ && _); [apply NoDup_keys_set_field|];
    apply NoDup_keys_assign, NoDup_nil_2.
Qed.

(** Reading a property of an object back from its JSON text. *)
Lemma roundtrip_lookup k (fields fields' : list (string * value)) :
  NoDup fields.*1 →
  JSON.roundtrip (VObj fields) = Some (VObj fields') →
  lookup_field k fields' = lookup_field k fields ≫= JSON.roundtrip.
Proof.
  simpl. intros Hnd [= <-]. induction fields as [|[k' x'] r IH]; [done|].
  csimpl in Hnd. apply NoDup_cons in Hnd as [Hk' Hnd]. simpl.
  destruct (decide (k' = k)) as [->|Hne].
  - destruct (JSON.roundtrip x') as [y|] eqn:Hy; simpl.
    + by rewrite decide_True.
    + rewrite (IH Hnd).
      apply lookup_field_None in Hk'. by rewrite Hk'.
  - destruct (JSON.roundtrip x') as [y|]; simpl.
    + rewrite decide_False by done. by apply IH.
    + by apply IH.
Qed.


(** *** Updating documents *)

Lemma lookup_field_app {A} k (l1 l2 : list (string * A)) :
  lookup_field k (l1 ++ l2)
  = match lookup_field k l1 with
    | Some x => Some x
    | None => lookup_field k l2
    end.
Proof.
  induction l1 as [|[k' y] r IH]; [done|]. simpl.
  destruct (decide (k' = k)); [done | exact IH].
Qed.

(** Writing a property list onto another: the last binding of a key in
    the source wins, a key the source lacks keeps its value. *)
Lemma lookup_assign_entries k (src dst : list (string * value)) :
  lookup_field k (fold_left (λ acc kv, set_field kv.1 kv.2 acc) src dst)
  = match lookup_field k (reverse src) with
    | Some x => Some x
    | None => lookup_field k dst
    end.
Proof.
  revert dst. induction src as [|[k' y] r IH]; intros dst; [done|].
  simpl. rewrite IH, reverse_cons, lookup_field_app.
  destruct (lookup_field k (reverse r)); [done|]. simpl.
  destruct (decide (k' = k)) as [->|Hne].
  - apply lookup_set_field_eq.
  - by apply lookup_set_field_ne.
Qed.

(** [update] merges shallowly: every property of the patch, whatever its
    name, becomes the top-level property of that name. *)
Lemma updated_doc_field now doc upd key x :
  key ≠ "updated_at" →
  lookup_field key (reverse (own_entries upd)) = Some x →
  get_prop (updated_doc now doc upd) key = x.
Proof.
  intros Hne Hx. unfold updated_doc, get_prop, own_entries at 1.
  rewrite lookup_set_field_ne by done.
  unfold assign at 1. by rewrite lookup_assign_entries, Hx.
Qed.

(** With the dotted key ["a.b"] in the patch, [update] stores the key as a
    top-level property named ["a.b"] and leaves the nested field [a.b] as
    it was, where [deepUpdate] on the same document and patch sets the
    nested field. *)
Lemma filestore_update_dotted_key :
  let query := VObj [("id", VStr "u1")] in
  let patch := VObj [("a.b", VNum 2)] in
  let r := update (Env 200 "g2") "users" query patch nested_user in
  let stored :=
    VObj [("id", VStr "u1"); ("a", VObj [("b", VNum 1)]);
          ("created_at", VNum 100); ("updated_at", VNum 200);
          ("a.b", VNum 2)] in
  r.1 = Ok (VNum 1)
  ∧ (findOne "users" query r.2).1 = Ok stored
  ∧ get_prop stored "a.b" = VNum 2
  ∧ walk_parts ["a"; "b"] stored = Some (VNum 1)
  ∧ deepUpdate
      (VObj [("id", VStr "u1"); ("a", VObj [("b", VNum 1)]);
             ("created_at", VNum 100); ("updated_at", VNum 100)])
      patch
    = Some (VObj [("id", VStr "u1"); ("a", VObj [("b", VNum 2)]);
                  ("created_at", VNum 100); ("updated_at", VNum 100)]).
Proof. by vm_compute. Qed.

(** *** What an acknowledged [set] has written *)

Lemma set_true_written key v s s' :
  set key v s = (Ok (VBool true), s') →
  ∃ v', JSON.roundtrip v = Some v'
        ∧ Fs.file_at (disk s') (Fs.join (keyValueDir s) (key +:+ ".json"))
          = Some (JSON.JsonText v').
Proof.
  unfold set, writeJson, JSON.stringify. unfold_m. unfold fs_write.
  destruct (connected s); [|done].
  destruct (JSON.roundtrip v) as [v'|]; [|done]. simpl.
  destruct (Fs.writeFileSync _ _ (disk s)) as [m|err] eqn:Hw; [|done].
  intros [= <-]. exists v'. split; [done|]. simpl.
  unfold Fs.writeFileSync in Hw.
  destruct (Fs.join (keyValueDir s) (key +:+ ".json")) as [|c r]; [done|].
  destruct (Fs.accepts (disk s) (c :: r)) eqn:Ha; [|done]. simpl in Hw.
  destruct (negb _); [done|].
  destruct (Fs.nodes (disk s) !! (c :: r)) as [[|t]|]; simplify_eq;
    by apply file_at_put.
Qed.

End AdapterFacts.

(* ===================================================================== *)
(** ** The coordinator: cache and storage *)
(* ===================================================================== *)

Module HyperDBFacts.
Import JS HyperDB AdapterSpec HyperDBSpec.

Lemma cache_set_holds now key v ttl_arg c :
  lookup_field key (MemoryCache.cache (MemoryCache.set now key v ttl_arg c).2)
  = Some v.
Proof. unfold MemoryCache.set. simpl. apply lookup_set_field_eq. Qed.

(** C1, as the code has it.  [set] writes the cache first and whatever
    the adapter then answers: afterwards the cache is the old cache with
    [key] set to [value], and holds [value] for [key], also when the
    adapter refused the write or threw.  When the adapter acknowledged the
    write, the file of the key holds the JSON form of the value. *)
Theorem set_caches_first e key v h :
  let r := set e key v h in
  cache r.2 = (MemoryCache.set (now e) key v None (cache h)).2
  ∧ lookup_field key (MemoryCache.cache (cache r.2)) = Some v
  ∧ (r.1 = Ok (VBool true) →
     ∃ v', JSON.roundtrip v = Some v'
           ∧ stored_at r.2 key = Some (JSON.JsonText v')).
Proof.
  unfold set, StorageEngine.set, StorageEngine.on_adapter.
  destruct (FileStoreAdapter.set key v (StorageEngine.adapter (storage h)))
    as [result a] eqn:Hset.
  cbn [fst snd cache storage].
  split_and!; [done | apply cache_set_holds |].
  intros ->. unfold stored_at. cbn [storage StorageEngine.adapter].
  destruct (AdapterFacts.set_true_written _ _ _ _ Hset) as (v' & Hv & Hd).
  exists v'. split; [done|].
  replace (FileStoreAdapter.keyValueDir a)
    with (FileStoreAdapter.keyValueDir (StorageEngine.adapter (storage h)));
    [done|].
  unfold FileStoreAdapter.keyValueDir. f_equal.
  revert Hset.
  unfold FileStoreAdapter.set, FileStoreAdapter.writeJson.
  AdapterFacts.unfold_m. unfold FileStoreAdapter.fs_write.
  destruct (FileStoreAdapter.connected _); [|done].
  destruct (JSON.stringify v); [|done].
  destruct (Fs.writeFileSync _ _ _); [|done].
  by intros [= <-].
Qed.

Lemma set_caches_first_witness :
  let h := create ["data"] Fs.empty in
  let r := set (Env 100 "g") "k" (VNum 1) h in
  r.1 = Ok (VBool true)
  ∧ lookup_field "k" (MemoryCache.cache (cache r.2)) = Some (VNum 1)
  ∧ ∃ v', JSON.roundtrip (VNum 1) = Some v'
          ∧ stored_at r.2 "k" = Some (JSON.JsonText v').
Proof.
  intros h r.
  destruct (set_caches_first (Env 100 "g") "k" (VNum 1) h)
    as (_ & Hc & Hw).
  split_and!; [reflexivity | exact Hc | apply Hw; reflexivity].
Defined.

(** C1 as stated fails: the cache holds values the adapter never wrote.
    With the key ["a/b"] the adapter answers [false], after [close()] it
    throws; both times the cache serves the value and storage has none. *)
Lemma set_caches_unwritten_value :
  let h := create ["data"] Fs.empty in
  let r := set (Env 100 "g") "a/b" (VNum 1) h in
  let closed := (close h).2 in
  let r' := set (Env 100 "g") "k" (VNum 1) closed in
  r.1 = Ok (VBool false)
  ∧ (MemoryCache.get 101 "a/b" (cache r.2)).1 = VNum 1
  ∧ (StorageEngine.get "a/b" (storage r.2)).1 = Ok VNull
  ∧ stored_at r.2 "a/b" = None
  ∧ r'.1 = Throw not_connected
  ∧ (MemoryCache.get 101 "k" (cache r'.2)).1 = VNum 1
  ∧ stored_at r'.2 "k" = None.
Proof. by vm_compute. Qed.

End HyperDBFacts.

(* ===================================================================== *)
(** ** The JSON adapter *)
(* ===================================================================== *)

Module JSONAdapterFacts.
Import JS Utils Eff JSONAdapter JSONAdapterSpec Samples.

Ltac unfold_m :=
  cbv [bind ret throw try_catch get_s of_option fs_read member as_array
       set_connected set_kvStore set_data_collections _ensureConnected].

Lemma json_guard_passes {A} (k : M A) s :
  connected s = true → (_ <- _ensureConnected ;; k) s = k s.
Proof. intros H. unfold_m. by rewrite H. Qed.

(** [_saveData] answers and touches the disk only. *)
Lemma saveData_disk_only s :
  ∃ b m, _saveData s = (Ok (VBool b), with_disk m s).
Proof.
  unfold _saveData, writeJson, fs_write, JSON.stringify. unfold_m.
  cbn [JSON.roundtrip fmap option_fmap option_map].
  destruct (Fs.writeFileSync (kvFile s) _ (disk s)) as [m1|e1].
  - cbn [disk with_disk].
    destruct (Fs.writeFileSync _ _ m1) as [m2|e2].
    + by exists true, m2.
    + exists false, m1. done.
  - exists false, (disk s). by destruct s.
Qed.





End JSONAdapterFacts.

(* ===================================================================== *)
(** ** Documents in both adapters *)
(* ===================================================================== *)

Module Documents.
Import JS Utils AdapterSpec JSONAdapterSpec Samples.




(** C3, at a patch with the dotted key ["a.b"].  In both adapters [update]
    stores the key as a top-level property named ["a.b"] and leaves the
    nested field [a.b] at 1; [deepUpdate] on the same document and patch
    sets the nested field to 2 and adds no such property. *)
Theorem update_dotted_key_literal :
  let query := VObj [("id", VStr "u1")] in
  let patch := VObj [("a.b", VNum 2)] in
  let stored :=
    VObj [("id", VStr "u1"); ("a", VObj [("b", VNum 1)]);
          ("created_at", VNum 100); ("updated_at", VNum 200);
          ("a.b", VNum 2)] in
  let rf := F.update (Env 200 "g2") "users" query patch
              nested_user in
  let rj := J.update (Env 200 "g2") "users" query patch
              one_user in
  rf.1 = Ok (VNum 1)
  ∧ (F.findOne "users" query rf.2).1 = Ok stored
  ∧ rj.1 = Ok (VNum 1)
  ∧ (J.findOne "users" query rj.2).1 = Ok stored
  ∧ get_prop stored "a.b" = VNum 2
  ∧ walk_parts ["a"; "b"] stored = Some (VNum 1)
  ∧ deepUpdate u1_nested_at_100 patch
    = Some (VObj [("id", VStr "u1"); ("a", VObj [("b", VNum 2)]);
                  ("created_at", VNum 100); ("updated_at", VNum 100)]).
Proof. by vm_compute. Qed.

End Documents.

(* ===================================================================== *)
(** ** The cache, call after call *)
(* ===================================================================== *)

Module CacheCalls.
Import JS MemoryCache CacheSpec CacheRuns CacheFacts.

(** X1. What was [set] is served until it expires: a [get] or [has] at
    time [t] after [set(key, v, ttl)] at time [now] answers [v],
    respectively [true], as long as [t] is not past [now + ttl], and
    [undefined], respectively [false], afterwards; [ttl] is the argument
    or, when it is left out, the default of the cache. *)
Theorem cache_set_then_read now key v ttl_arg c t :
  let ttl0 := match ttl_arg with Some x => x | None => ttl c end in
  let c' := (set now key v ttl_arg c).2 in
  (get t key c').1 = (if now + ttl0 <? t then VUndefined else v)
  ∧ (has t key c').1 = negb (now + ttl0 <? t).
Proof.
  intros ttl0 c'.
  assert (map_has key (cache c') = true) as Hh.
  { apply bool_decide_eq_true. unfold c', set. simpl.
    rewrite lookup_set_field_eq. by eexists. }
  assert (lookup_field key (expiry c') = Some (now + ttl0)) as He.
  { unfold c', set. simpl. by rewrite lookup_set_field_eq. }
  assert (lookup_field key (cache c') = Some v) as Hv.
  { unfold c', set. simpl. by rewrite lookup_set_field_eq. }
  unfold get, has. rewrite Hh, He, Hv. simpl.
  by destruct (now + ttl0 <? t).
Qed.

Lemma size_set_field_present key (v : value) (l : list (string * value)) :
  key ∈ l.*1 → List.length (set_field key v l) = List.length l.
Proof.
  intros Hin.
  rewrite <- (length_fmap fst (set_field key v l)), keys_set_field.
  rewrite decide_True by done. apply length_fmap.
Qed.

(** X2. Storing under a key the cache holds replaces the value where it
    stands and evicts nothing, also in a full cache: the keys and their
    order, the size, and the value and expiry of every other key are as
    before. *)
Theorem cache_overwrite_in_place now key v ttl_arg c :
  map_has key (cache c) = true →
  let c' := (set now key v ttl_arg c).2 in
  (cache c').*1 = (cache c).*1
  ∧ size c' = size c
  ∧ lookup_field key (cache c') = Some v
  ∧ ∀ k, k ≠ key →
      lookup_field k (cache c') = lookup_field k (cache c)
      ∧ lookup_field k (expiry c') = lookup_field k (expiry c).
Proof.
  intros Hh c'. unfold c', set. rewrite Hh, andb_false_r. simpl.
  apply map_has_true in Hh. split_and!.
  - rewrite keys_set_field. by rewrite decide_True.
  - unfold size. simpl. by rewrite size_set_field_present.
  - apply lookup_set_field_eq.
  - intros k Hk. split; by apply lookup_set_field_ne.
Qed.

Lemma cache_overwrite_in_place_witness :
  let c := Samples.full_empty_key in
  let c' := (set 7 "" (VNum 2) None c).2 in
  map_has "" (cache c) = true
  ∧ (cache c').*1 = (cache c).*1
  ∧ size c' = size c
  ∧ lookup_field "" (cache c') = Some (VNum 2).
Proof.
  intros c c'.
  assert (map_has "" (cache c) = true) as H by reflexivity.
  destruct (cache_overwrite_in_place 7 "" (VNum 2) None c H)
    as (Hk & Hs & Hv & _).
  by split_and!.
Defined.


Lemma delete_expiry key c :
  in_step c → expiry (delete key c).2 = delete_field key (expiry c).
Proof.
  intros [Hk _]. unfold delete.
  destruct (map_has key (cache c)) eqn:Hh; [done|]. simpl.
  apply map_has_false in Hh. rewrite Hk in Hh.
  by rewrite delete_field_absent.
Qed.








(** X4. After [delete(key)] the key is gone, whatever the cache held:
    [get] answers [undefined], [has] answers [false] and a second
    [delete] answers [false]; every other key keeps its value. *)
Theorem cache_delete_then_absent key c t :
  let c' := (delete key c).2 in
  (get t key c').1 = VUndefined
  ∧ (has t key c').1 = false
  ∧ (delete key c').1 = false
  ∧ ∀ k, k ≠ key → lookup_field k (cache c') = lookup_field k (cache c).
Proof.
  intros c'.
  assert (cache c' = delete_field key (cache c)) as Hc by apply delete_cache.
  assert (map_has key (cache c') = false) as Hh.
  { apply bool_decide_eq_false. rewrite Hc, lookup_delete_field_eq.
    by intros [? ?]. }
  unfold get, has, delete. rewrite Hh. simpl. split_and!; try done.
  intros k Hk. rewrite Hc. by apply lookup_delete_field_ne.
Qed.

(** The loop of [cleanup] over [entries], on a cache whose maps are in
    step: a key leaves both maps when one of the entries names it with a
    time before [now], and keeps its value and expiry otherwise. *)
Lemma cleanup_loop now entries : ∀ c,
  in_step c →
  let c' := fold_left
              (λ acc e, if e.2 <? now then (delete e.1 acc).2 else acc)
              entries c in
  ∀ k,
    (if existsb (λ e, bool_decide (e.1 = k) && (e.2 <? now)) entries
     then lookup_field k (cache c') = None
          ∧ lookup_field k (expiry c') = None
     else lookup_field k (cache c') = lookup_field k (cache c)
          ∧ lookup_field k (expiry c') = lookup_field k (expiry c)).
Proof.
  induction entries as [|[k0 e0] r IH]; intros c Hs; simpl; [done|].
  intros k.
  set (c1 := if e0 <? now then (delete k0 c).2 else c).
  assert (in_step c1) as Hs1.
  { unfold c1. destruct (e0 <? now); [by apply delete_in_step | done]. }
  specialize (IH c1 Hs1 k). cbv zeta in IH.
  destruct (existsb _ r) eqn:Hr.
  - by rewrite orb_true_r.
  - rewrite orb_false_r. destruct IH as [-> ->]. unfold c1.
    destruct (e0 <? now) eqn:He; [|by rewrite andb_false_r].
    rewrite andb_true_r, delete_cache, delete_expiry by done.
    destruct (bool_decide (k0 = k)) eqn:Hk.
    + apply bool_decide_eq_true in Hk as ->.
      by rewrite !lookup_delete_field_eq.
    + apply bool_decide_eq_false in Hk.
      by rewrite !lookup_delete_field_ne.
Qed.

Lemma existsb_stale now k (entries : list (string * Z)) :
  NoDup entries.*1 →
  existsb (λ e, bool_decide (e.1 = k) && (e.2 <? now)) entries
  = stale now (lookup_field k entries).
Proof.
  induction entries as [|[k0 e0] r IH]; [done|]. csimpl.
  intros [Hk0 Hnd]%NoDup_cons. rewrite (IH Hnd).
  destruct (decide (k0 = k)) as [->|Hne].
  - rewrite bool_decide_eq_true_2 by done. simpl.
    apply lookup_field_None in Hk0. rewrite Hk0. simpl.
    apply orb_false_r.
  - by rewrite bool_decide_eq_false_2.
Qed.

(** X5. [cleanup()] at time [now], on any cache reached by calls of the
    interface, removes exactly the entries whose expiry lies before [now]:
    such a key leaves the value map and the expiry map, every other key
    keeps its value and its expiry. *)
Theorem cleanup_removes_expired opt_maxSize opt_ttl calls now k :
  let c := run calls (create opt_maxSize opt_ttl) in
  let c' := cleanup now c in
  if stale now (lookup_field k (expiry c))
  then lookup_field k (cache c') = None ∧ lookup_field k (expiry c') = None
  else lookup_field k (cache c') = lookup_field k (cache c)
       ∧ lookup_field k (expiry c') = lookup_field k (expiry c).
Proof.
  intros c c'.
  assert (in_step c) as Hs.
  { apply run_in_step. split; [done | apply NoDup_nil_2]. }
  pose proof (cleanup_loop now (expiry c) c Hs k) as H. cbv zeta in H.
  rewrite existsb_stale in H; [exact H|].
  destruct Hs as [Hk Hnd]. by rewrite <- Hk.
Qed.

End CacheCalls.

(* ===================================================================== *)
(** ** The file-backed adapter, call after call *)
(* ===================================================================== *)

Module AdapterCalls.
Import JS Utils Eff FileStoreAdapter AdapterSpec AdapterFacts.

(** *** Paths of data files *)

Lemma split_append_last c (s t : string) :
  Str.includes c t = false →
  ∃ init l, Str.split c (s +:+ t) = init ++ [l +:+ t].
Proof.
  intros Ht. induction s as [|a r (init & l & IH)]; simpl.
  - exists [], "". simpl. by apply split_no_separator.
  - destruct (decide (a = c)).
    + exists ("" :: init), l. by rewrite IH.
    + rewrite IH. destruct init as [|h tl]; simpl.
      * by exists [], (String a l).
      * by exists (String a h :: tl), l.
Qed.

(** The path of a data file ends in the name of the file. *)
Lemma join_json_last (base : Fs.path) (stem : string) :
  ∃ pre l, Fs.join base (stem +:+ ".json") = pre ++ [l +:+ ".json"].
Proof.
  destruct (split_append_last "/" stem ".json" eq_refl) as (init & l & Hs).
  unfold Fs.join. rewrite Hs, fold_left_app. simpl.
  exists (fold_left Fs.join_step init base), l.
  unfold Fs.join_step.
  assert (4 < String.length (l +:+ ".json"))%nat as Hlen
    by (rewrite length_append; simpl; lia).
  rewrite decide_False.
  2:{ intros [E | E]; rewrite E in Hlen; simpl in Hlen; lia. }
  rewrite decide_False; [done|].
  intros E. rewrite E in Hlen. simpl in Hlen. lia.
Qed.

Lemma join_json_nonempty (base : Fs.path) (stem : string) :
  Fs.join base (stem +:+ ".json") ≠ [].
Proof.
  destruct (join_json_last base stem) as (pre & l & ->). by destruct pre.
Qed.

(** *** What the calls of [fs] have done when they return *)

Lemma writeFileSync_inv (p : Fs.path) (t : JSON.text) (d d' : Fs.t) :
  Fs.writeFileSync p t d = Ok d' →
  p ≠ [] ∧ Fs.accepts d p = true ∧ Fs.is_dir d (removelast p) = true
  ∧ d' = Fs.put p (Fs.File t) d.
Proof.
  unfold Fs.writeFileSync. destruct p as [|c r]; [done|].
  assert (c :: r ≠ []) as Hp by done. revert Hp.
  generalize (c :: r) as p. intros p Hp.
  destruct (Fs.accepts d p); [|done]. cbn [negb].
  destruct (Fs.is_dir d (removelast p)); [|done]. cbn [negb].
  destruct (Fs.nodes d !! p) as [[|t']|]; [done| |];
    by intros [= <-].
Qed.

Lemma unlinkSync_inv (p : Fs.path) (d d' : Fs.t) :
  Fs.unlinkSync p d = Ok d' → d' = Fs.remove p d.
Proof.
  unfold Fs.unlinkSync. destruct (negb _); [done|].
  destruct (Fs.nodes d !! p) as [[|t']|]; [done | | done].
  by intros [= <-].
Qed.

Lemma existsSync_remove (p : Fs.path) (d : Fs.t) :
  p ≠ [] → Fs.existsSync (Fs.remove p d) p = false.
Proof.
  intros Hp. destruct p as [|c r]; [done|]. simpl.
  rewrite lookup_delete_eq. apply andb_false_iff. right.
  apply bool_decide_eq_false. by intros [? ?].
Qed.

(** *** Key/value calls that were acknowledged *)

Lemma set_true_inv key v s s' :
  set key v s = (Ok (VBool true), s') →
  let p := Fs.join (keyValueDir s) (key +:+ ".json") in
  ∃ v', connected s = true
        ∧ JSON.roundtrip v = Some v'
        ∧ Fs.accepts (disk s) p = true
        ∧ s' = with_disk (Fs.put p (Fs.File (JSON.JsonText v')) (disk s)) s.
Proof.
  unfold set, writeJson, JSON.stringify. unfold_m. unfold fs_write.
  destruct (connected s); [|done].
  destruct (JSON.roundtrip v) as [v'|]; [|done]. simpl.
  destruct (Fs.writeFileSync _ _ (disk s)) as [m|err] eqn:Hw; [|done].
  intros [= <-]. exists v'.
  apply writeFileSync_inv in Hw as (_ & Ha & _ & ->). done.
Qed.

(** X6. A [set] that answered [true] can be read back, whatever the key:
    the [get] that follows returns the JSON form of the value (the value
    itself when JSON represents it exactly), [has] answers [true], and
    neither call changes anything. *)
Theorem set_true_then_get key v s s' :
  set key v s = (Ok (VBool true), s') →
  ∃ v', JSON.roundtrip v = Some v'
        ∧ (JSON.serializable v = true → v' = v)
        ∧ get key s' = (Ok v', s')
        ∧ has key s' = (Ok (VBool true), s').
Proof.
  intros Hset. destruct (set_true_inv _ _ _ _ Hset) as (v' & Hc & Hv & Ha & ->).
  exists v'. split; [done|]. split.
  { intros Hser. apply serializable_roundtrip in Hser. congruence. }
  set (p := Fs.join (keyValueDir s) (key +:+ ".json")) in *.
  assert (p ≠ []) as Hp by apply join_json_nonempty.
  assert (Fs.file_at (Fs.put p (Fs.File (JSON.JsonText v')) (disk s)) p
          = Some (JSON.JsonText v')) as Hf by (by apply file_at_put).
  split.
  - unfold get. rewrite guard_passes by done.
    unfold readJson. unfold_m. cbn [disk with_disk].
    change (Fs.join (keyValueDir (with_disk _ s)) (key +:+ ".json")) with p.
    rewrite (file_at_exists _ _ _ Hp Hf). cbn [negb disk with_disk].
    by rewrite (file_at_read _ _ _ Hf).
  - unfold has. rewrite guard_passes by done. unfold_m. cbn [disk with_disk].
    change (Fs.join (keyValueDir (with_disk _ s)) (key +:+ ".json")) with p.
    by rewrite (file_at_exists _ _ _ Hp Hf).
Qed.

Lemma set_true_then_get_witness :
  let s := (connect (create ["data"] Fs.empty)).2 in
  let v := VObj [("a", VNum 1); ("b", VUndefined)] in
  let s' := (set "k" v s).2 in
  set "k" v s = (Ok (VBool true), s')
  ∧ ∃ v', JSON.roundtrip v = Some v'
          ∧ (JSON.serializable v = true → v' = v)
          ∧ get "k" s' = (Ok v', s')
          ∧ has "k" s' = (Ok (VBool true), s').
Proof.
  intros s v s'.
  assert (set "k" v s = (Ok (VBool true), s')) as H by reflexivity.
  split; [exact H|]. exact (set_true_then_get "k" v s s' H).
Defined.

(** What [delete] has done when it answers [true]. *)
Lemma delete_true_inv key s s' :
  delete key s = (Ok (VBool true), s') →
  connected s = true
  ∧ s' = with_disk
           (Fs.remove (Fs.join (keyValueDir s) (key +:+ ".json")) (disk s)) s.
Proof.
  set (p := Fs.join (keyValueDir s) (key +:+ ".json")).
  unfold delete. unfold_m. unfold fs_write.
  destruct (connected s); [|done]. fold p.
  destruct (Fs.existsSync (disk s) p); [|done]. cbn [negb].
  destruct (Fs.unlinkSync p (disk s)) as [m|err] eqn:Hu; [|done].
  apply unlinkSync_inv in Hu as ->. by intros [= <-].
Qed.

(** The key/value calls on a key whose file is not there. *)
Lemma absent_key_calls key s :
  connected s = true →
  Fs.existsSync (disk s) (Fs.join (keyValueDir s) (key +:+ ".json")) = false →
  has key s = (Ok (VBool false), s)
  ∧ get key s = (Ok VNull, s)
  ∧ delete key s = (Ok (VBool false), s).
Proof.
  intros Hc Hex. split_and!.
  - unfold has. rewrite guard_passes by done. unfold_m. by rewrite Hex.
  - unfold get. rewrite guard_passes by done. unfold_m. by rewrite Hex.
  - unfold delete. rewrite guard_passes by done. unfold_m. by rewrite Hex.
Qed.

(** X7. A [delete] that answered [true] has removed the key, whatever the
    key: afterwards [has] answers [false], [get] answers [null] and a
    second [delete] answers [false], none of them changing anything. *)
Theorem delete_true_then_absent key s s' :
  delete key s = (Ok (VBool true), s') →
  has key s' = (Ok (VBool false), s')
  ∧ get key s' = (Ok VNull, s')
  ∧ delete key s' = (Ok (VBool false), s').
Proof.
  intros Hdel. apply delete_true_inv in Hdel as [Hc ->].
  apply absent_key_calls; [done|]. simpl.
  apply existsSync_remove, join_json_nonempty.
Qed.

Lemma delete_true_then_absent_witness :
  let s := (set "k" (VNum 1) (connect (create ["data"] Fs.empty)).2).2 in
  let s' := (delete "k" s).2 in
  delete "k" s = (Ok (VBool true), s')
  ∧ has "k" s' = (Ok (VBool false), s')
  ∧ get "k" s' = (Ok VNull, s')
  ∧ delete "k" s' = (Ok (VBool false), s').
Proof.
  intros s s'.
  assert (delete "k" s = (Ok (VBool true), s')) as H by reflexivity.
  split; [exact H|]. exact (delete_true_then_absent "k" s s' H).
Defined.

(** *** No data operation touches the connection or throws once connected *)

Lemma keeps_existsSync p : keeps_flag (existsSync p).
Proof. by apply keeps_bind. Qed.

Lemma keeps_fs_read {A} (f : Fs.t → res A) : keeps_flag (fs_read f).
Proof. done. Qed.

Lemma keeps_member v k : keeps_flag (member v k).
Proof. unfold member. by destruct (nullish v). Qed.

Lemma keeps_id_of v : keeps_flag (id_of v).
Proof.
  apply keeps_bind; [apply keeps_member|]. intros a.
  destruct (truthy a); [done | apply keeps_member].
Qed.

Lemma keeps_set_collections l : keeps_flag (set_collections l).
Proof. done. Qed.

Lemma keeps_guard {A} (k : M A) :
  keeps_flag k → keeps_flag (_ <- _ensureConnected ;; k).
Proof.
  intros Hk. apply keeps_bind; [|done].
  apply keeps_bind; [done|]. intros s. by destruct (connected s).
Qed.

Lemma keeps_findOne_scan dir query files :
  keeps_flag (findOne_scan dir query files).
Proof.
  induction files as [|file rest IH]; [done|]. simpl.
  destruct (Str.endsWith ".json" file); [|done].
  apply keeps_bind; [apply keeps_readJson|]. intros doc.
  by destruct (matches doc query).
Qed.

Lemma keeps_find_scan dir query files : ∀ documents,
  keeps_flag (find_scan dir query files documents).
Proof.
  induction files as [|file rest IH]; intros documents; [done|]. simpl.
  destruct (Str.endsWith ".json" file); [|done].
  apply keeps_bind; [apply keeps_readJson|]. intros doc.
  by destruct (find_keeps query doc).
Qed.

Lemma keeps_update_loop now dir upd docs : ∀ n,
  keeps_flag (update_loop now dir upd docs n).
Proof.
  induction docs as [|doc rest IH]; intros n; [done|]. simpl.
  apply keeps_bind; [apply keeps_id_of|]. intros id.
  apply keeps_bind; [apply keeps_writeJson | done].
Qed.

Lemma keeps_delete_loop dir docs : ∀ n, keeps_flag (delete_loop dir docs n).
Proof.
  induction docs as [|doc rest IH]; intros n; [done|]. simpl.
  apply keeps_bind; [apply keeps_id_of|]. intros id.
  apply keeps_bind; [apply keeps_existsSync|]. intros [|]; [|done].
  apply keeps_bind; [apply keeps_fs_write | done].
Qed.

Lemma keeps_createCollection name : keeps_flag (createCollection name).
Proof.
  apply keeps_guard, keeps_try_catch; [|done].
  apply keeps_bind; [done|]. intros s.
  apply keeps_bind; [apply keeps_ensure_dir|]. intros _.
  apply keeps_bind; [done|]. intros s1.
  apply keeps_bind; [|done].
  destruct (negb _); [|done].
  apply keeps_bind; [done|]. intros _. apply keeps_writeJson.
Qed.

Lemma keeps_find_docs collection query :
  keeps_flag (find_docs collection query).
Proof.
  apply keeps_guard, keeps_try_catch; [|done].
  apply keeps_bind; [done|]. intros s.
  destruct (negb _); [done|].
  apply keeps_bind; [done|]. intros files. apply keeps_find_scan.
Qed.

Lemma keeps_call e o : keeps_flag (call e o).
Proof.
  destruct o; simpl.
  - apply keeps_guard, keeps_try_catch; [|done].
    apply keeps_bind; [done|]. intros s.
    apply keeps_bind; [apply keeps_writeJson | done].
  - apply keeps_guard, keeps_try_catch; [|done].
    apply keeps_bind; [done|]. intros s.
    apply keeps_bind; [apply keeps_existsSync|].
    intros [|]; [apply keeps_readJson | done].
  - apply keeps_guard, keeps_try_catch; [|done].
    apply keeps_bind; [done|]. intros s.
    apply keeps_bind; [apply keeps_existsSync | done].
  - apply keeps_guard, keeps_try_catch; [|done].
    apply keeps_bind; [done|]. intros s.
    apply keeps_bind; [apply keeps_existsSync|]. intros [|]; [|done].
    apply keeps_bind; [apply keeps_fs_write | done].
  - apply keeps_guard, keeps_try_catch; [|done].
    by apply keeps_bind.
  - apply keeps_createCollection.
  - apply keeps_guard, keeps_try_catch; [|done].
    apply keeps_bind; [apply keeps_createCollection|]. intros _.
    apply keeps_bind; [done|]. intros s.
    apply keeps_bind; [apply keeps_writeJson | done].
  - apply keeps_guard, keeps_try_catch; [|done].
    apply keeps_bind; [done|]. intros s.
    destruct (negb _); [done|].
    apply keeps_bind; [apply keeps_id_of|]. intros id.
    destruct (truthy id).
    + apply keeps_bind; [apply keeps_existsSync|].
      intros [|]; [apply keeps_readJson | done].
    + apply keeps_bind; [done|]. intros files. apply keeps_findOne_scan.
  - apply keeps_bind; [apply keeps_find_docs | done].
  - apply keeps_guard, keeps_try_catch; [|done].
    apply keeps_bind; [done|]. intros s.
    destruct (negb _); [done|].
    apply keeps_bind; [apply keeps_find_docs|]. intros docs.
    destruct (bool_decide _); [done|].
    apply keeps_bind; [apply keeps_update_loop | done].
  - apply keeps_guard, keeps_try_catch; [|done].
    apply keeps_bind; [done|]. intros s.
    destruct (negb _); [done|].
    apply keeps_bind; [apply keeps_id_of|]. intros id.
    destruct (truthy id).
    + apply keeps_bind; [apply keeps_existsSync|]. intros [|]; [|done].
      apply keeps_bind; [apply keeps_fs_write | done].
    + apply keeps_bind; [apply keeps_find_docs|]. intros docs.
      destruct (bool_decide _); [done|].
      apply keeps_bind; [apply keeps_delete_loop | done].
Qed.

(** A [try] whose [catch] returns a value returns. *)
Lemma try_catch_returns {A} (body : M A) (a : A) s :
  ∃ v, (try_catch body (ret a) s).1 = Ok v.
Proof.
  unfold try_catch. destruct (body s) as [[v|err] s']; by eexists.
Qed.

Lemma guarded_try_returns {A} (body : M A) (a : A) s :
  connected s = true →
  ∃ v, ((_ <- _ensureConnected ;; try_catch body (ret a)) s).1 = Ok v.
Proof. intros Hc. rewrite guard_passes by done. apply try_catch_returns. Qed.

(** X8. On a connected adapter none of the eleven data operations throws:
    whatever goes wrong on the disk, the call returns a value (its result,
    or the [false], [null], [[]] or [0] of its [catch]), and the adapter
    is still connected afterwards. *)
Theorem connected_call_returns e o s :
  connected s = true →
  ∃ v s', call e o s = (Ok v, s') ∧ connected s' = true.
Proof.
  intros Hc.
  assert (∃ v, (call e o s).1 = Ok v) as [v Hv].
  { destruct o; simpl; try (by apply guarded_try_returns).
    unfold find, bind at 1.
    assert (∃ docs, (find_docs collection query s).1 = Ok docs) as [docs Hd]
      by (unfold find_docs; by apply guarded_try_returns).
    destruct (find_docs collection query s) as [r s1]. simpl in Hd.
    subst r. by eexists. }
  exists v, (call e o s).2. split.
  - rewrite <- Hv. by destruct (call e o s).
  - by rewrite keeps_call.
Qed.

Lemma connected_call_returns_witness :
  let s := (connect (create ["data"] Fs.empty)).2 in
  connected s = true
  ∧ ∃ v s', call (Env 5 "g") (Set_ "a/b" (VNum 1)) s = (Ok v, s')
            ∧ connected s' = true.
Proof.
  intros s. split; [reflexivity|].
  apply (connected_call_returns (Env 5 "g") (Set_ "a/b" (VNum 1)) s).
  reflexivity.
Defined.

(** *** [find] as a whole *)

Import ScanSpec.

Lemma filter_find_keeps query (docs : list value) :
  filter (λ d, find_keeps query d = true) docs
  = if negb (truthy query) || bool_decide (enum_keys query = [])
    then docs
    else filter (λ d, matches d query = true) docs.
Proof.
  unfold find_keeps.
  destruct (negb (truthy query) || bool_decide (enum_keys query = []))
    eqn:Hall.
  - induction docs as [|d r IH]; [done|].
    rewrite filter_cons, decide_True by done. by rewrite IH.
  - by apply list_filter_iff.
Qed.

(** X9. [find] is all or nothing.  On a connected adapter, for a
    collection it knows, [find] lists the directory of the collection and
    parses every [.json] file in it: if all of them parse, the answer is
    all their documents for an absent or empty query, and those the matcher
    accepts otherwise, in the order of the listing; if the listing fails
    or a single file cannot be read or parsed, the answer is the empty
    array.  Nothing is changed. *)
Theorem find_all_or_nothing collection query s :
  let dir := collection_dir s collection in
  connected s = true →
  set_has (VStr (normalizeName collection)) (collections s) = true →
  find collection query s
  = (Ok (VArr
           match Fs.readdirSync dir (disk s) with
           | Ok files =>
               match read_docs (disk s) dir files with
               | Ok docs =>
                   if negb (truthy query)
                      || bool_decide (enum_keys query = [])
                   then docs
                   else filter (λ d, matches d query = true) docs
               | Throw _ => []
               end
           | Throw _ => []
           end), s).
Proof.
  intros dir Hc Hreg. unfold find, bind at 1, find_docs.
  rewrite guard_passes by done. unfold_m. rewrite Hreg. cbn [negb].
  fold (collection_dir s collection). fold dir.
  destruct (Fs.readdirSync dir (disk s)) as [files|err]; [|done].
  rewrite find_scan_spec.
  destruct (read_docs (disk s) dir files) as [docs|err]; [|done].
  simpl. by rewrite filter_find_keeps.
Qed.

Lemma find_all_or_nothing_witness :
  let s := Samples.two_users in
  let dir := collection_dir s "users" in
  let query := VObj [("age", VNum 20)] in
  connected s = true
  ∧ set_has (VStr (normalizeName "users")) (collections s) = true
  ∧ (find "users" query s).1
    = Ok (VArr [VObj [("id", VStr "u2"); ("age", VNum 20);
                      ("created_at", VNum 100); ("updated_at", VNum 100)]])
  ∧ find "users" query s
    = (Ok (VArr
             match Fs.readdirSync dir (disk s) with
             | Ok files =>
                 match read_docs (disk s) dir files with
                 | Ok docs =>
                     if negb (truthy query)
                        || bool_decide (enum_keys query = [])
                     then docs
                     else filter (λ d, matches d query = true) docs
                 | Throw _ => []
                 end
             | Throw _ => []
             end), s).
Proof.
  intros s dir query. split_and!; [reflexivity | reflexivity | by vm_compute |].
  apply (find_all_or_nothing "users" query s); reflexivity.
Defined.

(** *** Collections *)

Lemma mkdir_from_accepts rest : ∀ base d d',
  Fs.mkdir_from base rest d = Ok d' → Fs.accepts d' = Fs.accepts d.
Proof.
  induction rest as [|c r IH]; intros base d d'; simpl.
  - by intros [= <-].
  - destruct (Fs.nodes d !! (base ++ [c])) as [[|t]|]; [| done |].
    + apply IH.
    + intros H. by rewrite (IH _ _ _ H).
Qed.

Lemma mkdir_from_dir rest : ∀ base d d',
  Fs.mkdir_from base rest d = Ok d' →
  Fs.nodes d !! base = Some Fs.Dir ∨ rest ≠ [] →
  Fs.nodes d' !! (base ++ rest) = Some Fs.Dir.
Proof.
  induction rest as [|c r IH]; intros base d d'; simpl.
  - intros [= <-] [H|H]; [by rewrite app_nil_r | done].
  - intros H _.
    replace (base ++ c :: r) with ((base ++ [c]) ++ r)
      by (by rewrite <- app_assoc).
    destruct (Fs.nodes d !! (base ++ [c])) as [[|t]|] eqn:Hn; [| done |].
    + apply (IH _ _ _ H). by left.
    + apply (IH _ _ _ H). left. simpl. apply lookup_insert_eq.
Qed.

Lemma mkdirSync_exists (p : Fs.path) (d d' : Fs.t) :
  Fs.mkdirSync p d = Ok d' → Fs.existsSync d' p = true.
Proof.
  unfold Fs.mkdirSync. destruct (Fs.accepts d p) eqn:Ha; [|done].
  intros H. destruct p as [|c r]; [done|].
  unfold Fs.existsSync. rewrite (mkdir_from_accepts _ _ _ _ H), Ha. simpl.
  apply bool_decide_eq_true.
  pose proof (mkdir_from_dir _ [] _ _ H) as Hd. simpl in Hd.
  rewrite Hd; [by eexists | by right].
Qed.

Lemma existsSync_put (p q : Fs.path) (n : Fs.node) (d : Fs.t) :
  Fs.existsSync d q = true → Fs.existsSync (Fs.put p n d) q = true.
Proof.
  destruct q as [|c r]; [done|]. simpl.
  intros [Ha Hn]%andb_true_iff. rewrite Ha. simpl.
  apply bool_decide_eq_true. apply bool_decide_eq_true in Hn.
  destruct (decide (p = c :: r)) as [->|Hne].
  - rewrite lookup_insert_eq. by eexists.
  - by rewrite lookup_insert_ne.
Qed.

Lemma set_has_add name l : set_has (VStr name) (set_add (VStr name) l) = true.
Proof.
  unfold set_add. destruct (set_has (VStr name) l) eqn:Hh; [done|].
  unfold set_has. rewrite existsb_app. simpl.
  rewrite bool_decide_eq_true_2 by done. apply orb_true_r.
Qed.

(** What [ensure_dir] leaves when it returns. *)
Lemma ensure_dir_inv p s s' :
  ensure_dir p s = (Ok (), s') →
  Fs.existsSync (disk s') p = true
  ∧ connected s' = connected s ∧ dbDir s' = dbDir s
  ∧ collections s' = collections s.
Proof.
  unfold ensure_dir. unfold_m. unfold fs_write.
  destruct (Fs.existsSync (disk s) p) eqn:Hex; cbn [negb].
  - by intros [= <-].
  - destruct (Fs.mkdirSync p (disk s)) as [m|err] eqn:Hm; [|done].
    intros [= <-]. simpl. split; [|done]. by apply mkdirSync_exists in Hm.
Qed.

(** What [createCollection] leaves when it returns [true]: the directory
    and the name in the set. *)
Lemma createCollection_true_inv name s s' :
  createCollection name s = (Ok (VBool true), s') →
  connected s' = true ∧ dbDir s' = dbDir s
  ∧ Fs.existsSync (disk s') (collection_dir s name) = true
  ∧ set_has (VStr (normalizeName name)) (collections s') = true.
Proof.
  unfold createCollection. unfold bind at 1.
  destruct (_ensureConnected s) as [[[]|err] s0] eqn:Hg; [|done].
  assert (s0 = s ∧ connected s = true) as [-> Hc].
  { revert Hg. unfold_m. destruct (connected s); [|done]. by intros [= <-]. }
  unfold try_catch, bind at 1. unfold get_s at 1.
  fold (collection_dir s name). unfold bind at 1.
  destruct (ensure_dir (collection_dir s name) s) as [[[]|err] s1] eqn:He;
    [|done].
  apply ensure_dir_inv in He as (Hex & Hc1 & Hd1 & Hl1).
  unfold bind at 1. unfold get_s at 1. unfold bind at 1.
  destruct (set_has (VStr (normalizeName name)) (collections s1)) eqn:Hh;
    cbn [negb].
  - unfold ret. intros [= <-]. split_and!; congruence.
  - unfold bind at 1. unfold set_collections at 1.
    unfold writeJson, JSON.stringify. cbn [JSON.roundtrip fmap option_fmap
      option_map]. unfold fs_write. cbn [disk].
    destruct (Fs.writeFileSync _ _ (disk s1)) as [m|err] eqn:Hw; [|done].
    unfold ret. intros [= <-]. cbn [connected dbDir disk collections with_disk].
    apply writeFileSync_inv in Hw as (_ & _ & _ & ->).
    split_and!; [congruence | done | by apply existsSync_put |].
    apply set_has_add.
Qed.

(** X10. Creating a collection twice is harmless, under any spelling of
    the name: after a [createCollection] that answered [true], another one
    with a name of the same normal form ([normalizeName]) answers [true]
    and changes nothing, neither the disk nor the set of names. *)
Theorem createCollection_again a b s s' :
  createCollection a s = (Ok (VBool true), s') →
  normalizeName b = normalizeName a →
  createCollection b s' = (Ok (VBool true), s').
Proof.
  intros Hcreate Hn.
  destruct (createCollection_true_inv _ _ _ Hcreate) as (Hc & Hd & Hex & Hh).
  unfold createCollection. rewrite guard_passes by done.
  unfold ensure_dir. unfold_m. rewrite Hn.
  replace (Fs.join (collectionsDir s') (normalizeName a))
    with (collection_dir s a)
    by (unfold collection_dir, collectionsDir; by rewrite Hd).
  rewrite Hex. cbn [negb]. by rewrite Hh.
Qed.

Lemma createCollection_again_witness :
  let s := (connect (create ["data"] Fs.empty)).2 in
  let s' := (createCollection "My Users" s).2 in
  createCollection "My Users" s = (Ok (VBool true), s')
  ∧ normalizeName "my_users" = normalizeName "My Users"
  ∧ createCollection "my_users" s' = (Ok (VBool true), s').
Proof.
  intros s s'.
  assert (createCollection "My Users" s = (Ok (VBool true), s')) as H
    by reflexivity.
  assert (normalizeName "my_users" = normalizeName "My Users") as Hn
    by reflexivity.
  split_and!; [exact H | exact Hn |].
  exact (createCollection_again "My Users" "my_users" s s' H Hn).
Defined.

(** *** Documents *)

(** What [createCollection] leaves when it returns at all: the name is in
    the set, unless the directory could not be made. *)
Lemma createCollection_inv name s b s1 :
  connected s = true →
  createCollection name s = (Ok b, s1) →
  connected s1 = true ∧ dbDir s1 = dbDir s
  ∧ (set_has (VStr (normalizeName name)) (collections s1) = true
     ∨ Fs.existsSync (disk s1) (collection_dir s name) = false).
Proof.
  intros Hc. unfold createCollection. rewrite guard_passes by done.
  unfold try_catch, bind at 1. unfold get_s at 1.
  fold (collection_dir s name). unfold bind at 1.
  destruct (ensure_dir (collection_dir s name) s) as [[[]|err] s1'] eqn:He.
  - apply ensure_dir_inv in He as (Hex & Hc1 & Hd1 & Hl1).
    unfold bind at 1. unfold get_s at 1. unfold bind at 1.
    destruct (set_has (VStr (normalizeName name)) (collections s1')) eqn:Hh;
      cbn [negb].
    + unfold ret. intros [= <- <-]. split_and!; [congruence | done | by left].
    + unfold bind at 1. unfold set_collections at 1.
      unfold writeJson, JSON.stringify. cbn [JSON.roundtrip fmap option_fmap
        option_map]. unfold fs_write. cbn [disk].
      destruct (Fs.writeFileSync _ _ (disk s1')) as [m|err] eqn:Hw;
        unfold ret; intros [= <- <-];
        cbn [connected dbDir disk collections with_disk];
        (split_and!; [congruence | done | left; apply set_has_add]).
  - unfold ret. intros [= <- <-].
    revert He. unfold ensure_dir. unfold_m. unfold fs_write.
    destruct (Fs.existsSync (disk s) (collection_dir s name)) eqn:Hex;
      cbn [negb]; [done|].
    destruct (Fs.mkdirSync _ (disk s)); [done|]. intros [= _ <-].
    split_and!; [done | done | by right].
Qed.

Lemma createCollection_returns name s :
  connected s = true → ∃ v, (createCollection name s).1 = Ok v.
Proof. intros Hc. unfold createCollection. by apply guarded_try_returns. Qed.

(** What [insert] has done when it answers [true], for an id whose
    string holds no ['/']. *)
Lemma insert_true_inv e collection document s s' :
  insert e collection document s = (Ok (VBool true), s') →
  Str.includes "/" (to_string (insert_id e document)) = false →
  ∃ fields,
    JSON.roundtrip (VObj (stamped e document)) = Some (VObj fields)
    ∧ connected s' = true ∧ dbDir s' = dbDir s
    ∧ set_has (VStr (normalizeName collection)) (collections s') = true
    ∧ Fs.file_at (disk s') (doc_file s collection (insert_id e document))
      = Some (JSON.JsonText (VObj fields)).
Proof.
  intros Hins Hsep. revert Hins. unfold insert. unfold bind at 1.
  destruct (_ensureConnected s) as [[[]|err] s0] eqn:Hg; [|done].
  assert (s0 = s ∧ connected s = true) as [-> Hc].
  { revert Hg. unfold_m. destruct (connected s); [|done]. by intros [= <-]. }
  unfold try_catch, bind at 1.
  destruct (createCollection (normalizeName collection) s)
    as [[b|err] s1] eqn:Hcc.
  2:{ destruct (createCollection_returns (normalizeName collection) s Hc)
        as [v Hv].
      by rewrite Hcc in Hv. }
  destruct (createCollection_inv _ _ _ _ Hc Hcc) as (Hc1 & Hd1 & Hreg).
  rewrite normalizeName_idem in Hreg.
  unfold bind at 1. unfold get_s at 1. unfold bind at 1.
  fold (insert_id e document).
  rewrite join_json by done.
  replace (Fs.join (collectionsDir s1) (normalizeName collection))
    with (collection_dir s collection)
    by (unfold collection_dir, collectionsDir; by rewrite Hd1).
  fold (doc_file s collection (insert_id e document)).
  destruct (roundtrip_object (stamped e document)) as [fields Hrt].
  unfold writeJson, JSON.stringify. rewrite Hrt.
  cbn [fmap option_fmap option_map]. unfold fs_write.
  destruct (Fs.writeFileSync _ _ (disk s1)) as [m|err] eqn:Hw; [|done].
  unfold ret. intros [= <-]. exists fields.
  apply writeFileSync_inv in Hw as (_ & Ha & Hdir & ->).
  unfold doc_file in Hdir. rewrite removelast_last in Hdir.
  cbn [connected dbDir disk collections with_disk].
  split_and!; [done | done | done | | by apply file_at_put].
  destruct Hreg as [Hreg|Hno]; [done|].
  apply is_dir_exists in Hdir.
  unfold collection_dir in Hno. rewrite normalizeName_idem in Hno.
  unfold collection_dir in Hdir. congruence.
Qed.

(** X11. What [insert] acknowledged, [findOne] finds by its id, under any
    spelling of the collection name: after an [insert] that answered
    [true], for an id whose string holds no ['/'], [findOne] with the query
    [{ id }] returns the stored document, which is, property by property,
    the JSON form of the inserted document with its id and both timestamps
    set to the time of the insert. *)
Theorem insert_then_findOne e a b document s s' :
  insert e a document s = (Ok (VBool true), s') →
  normalizeName b = normalizeName a →
  truthy (insert_id e document) = true →
  Str.includes "/" (to_string (insert_id e document)) = false →
  ∃ fields,
    findOne b (VObj [("id", insert_id e document)]) s'
    = (Ok (VObj fields), s')
    ∧ ∀ k, lookup_field k fields
           = DocumentSpec.inserted_json_field e document k.
Proof.
  intros Hins Hn Hid Hsep.
  destruct (insert_true_inv _ _ _ _ _ Hins Hsep)
    as (fields & Hrt & Hc & Hd & Hreg & Hf).
  exists fields. split.
  - apply findOne_by_id_reads_file; simpl.
    + done.
    + by rewrite Hn.
    + done.
    + unfold or_else. by rewrite Hid.
    + unfold or_else. by rewrite Hid.
    + unfold or_else. rewrite Hid.
      replace (doc_file s' b (insert_id e document))
        with (doc_file s a (insert_id e document)); [done|].
      unfold doc_file, collection_dir, collectionsDir. by rewrite Hn, Hd.
  - intros k. unfold DocumentSpec.inserted_json_field.
    rewrite <- stamped_lookup.
    apply roundtrip_lookup; [apply NoDup_keys_stamped | done].
Qed.

Lemma insert_then_findOne_witness :
  let e := Env 100 "g1" in
  let document := VObj [("_id", VNum 7); ("name", VStr "Ann")] in
  let s := (connect (create ["data"] Fs.empty)).2 in
  let s' := (insert e "Team A" document s).2 in
  insert e "Team A" document s = (Ok (VBool true), s')
  ∧ (findOne "team_a" (VObj [("id", VNum 7)]) s').1
    = Ok (VObj [("_id", VNum 7); ("name", VStr "Ann");
                ("created_at", VNum 100); ("updated_at", VNum 100)])
  ∧ ∃ fields,
      findOne "team_a" (VObj [("id", insert_id e document)]) s'
      = (Ok (VObj fields), s')
      ∧ ∀ k, lookup_field k fields
             = DocumentSpec.inserted_json_field e document k.
Proof.
  intros e document s s'.
  assert (insert e "Team A" document s = (Ok (VBool true), s')) as H
    by reflexivity.
  split_and!; [exact H | by vm_compute |].
  apply (insert_then_findOne e "Team A" "team_a" document s s' H);
    reflexivity.
Defined.

(** X12. A document deleted by its id is gone: when [deleteFrom] with a
    query that names an id answers 1, the [findOne] with the same query
    that follows returns [null] and a second [deleteFrom] answers 0,
    neither changing anything. *)
Theorem deleteFrom_id_then_gone collection query s s' :
  truthy (or_else (get_prop query "id") (get_prop query "_id")) = true →
  deleteFrom collection query s = (Ok (VNum 1), s') →
  findOne collection query s' = (Ok VNull, s')
  ∧ deleteFrom collection query s' = (Ok (VNum 0), s').
Proof.
  intros Hid Hdel.
  set (id := or_else (get_prop query "id") (get_prop query "_id")) in *.
  set (p := Fs.join (Fs.join (collectionsDir s) (normalizeName collection))
              (to_string id +:+ ".json")).
  assert (p ≠ []) as Hp by apply join_json_nonempty.
  assert (nullish query = false) as Hq.
  { destruct query; try done; by vm_compute in Hid. }
  assert (id_of query s = (Ok id, s)) as Hids.
  { unfold id_of, member. unfold_m. rewrite Hq. unfold id, or_else.
    by destruct (truthy (get_prop query "id")). }
  assert (connected s = true
          ∧ set_has (VStr (normalizeName collection)) (collections s) = true
          ∧ s' = with_disk (Fs.remove p (disk s)) s) as (Hc & Hreg & ->).
  { revert Hdel. unfold deleteFrom. unfold bind at 1.
    destruct (_ensureConnected s) as [[[]|err] s0] eqn:Hg; [|done].
    assert (s0 = s ∧ connected s = true) as [-> Hc].
    { revert Hg. unfold_m. destruct (connected s); [|done].
      by intros [= <-]. }
    unfold try_catch, bind at 1. unfold get_s at 1.
    destruct (set_has _ (collections s)); cbn [negb]; [|done].
    unfold bind at 1. rewrite Hids, Hid. unfold_m. unfold fs_write. fold p.
    destruct (Fs.existsSync (disk s) p); [|done].
    destruct (Fs.unlinkSync p (disk s)) as [m|err] eqn:Hu; [|done].
    apply unlinkSync_inv in Hu as ->. by intros [= <-]. }
  assert (Fs.existsSync (Fs.remove p (disk s)) p = false) as Hex
    by (by apply existsSync_remove).
  set (s' := with_disk (Fs.remove p (disk s)) s).
  assert (id_of query s' = (Ok id, s')) as Hids'.
  { unfold id_of, member. unfold_m. rewrite Hq. unfold id, or_else.
    by destruct (truthy (get_prop query "id")). }
  split.
  - unfold findOne. rewrite guard_passes by done.
    unfold try_catch, bind at 1. unfold get_s at 1.
    change (collections s') with (collections s). rewrite Hreg. cbn [negb].
    unfold bind at 1. rewrite Hids', Hid. unfold_m.
    change (Fs.join (Fs.join (collectionsDir s') (normalizeName collection))
              (to_string id +:+ ".json")) with p.
    change (disk s') with (Fs.remove p (disk s)). by rewrite Hex.
  - unfold deleteFrom. rewrite guard_passes by done.
    unfold try_catch, bind at 1. unfold get_s at 1.
    change (collections s') with (collections s). rewrite Hreg. cbn [negb].
    unfold bind at 1. rewrite Hids', Hid. unfold_m.
    change (Fs.join (Fs.join (collectionsDir s') (normalizeName collection))
              (to_string id +:+ ".json")) with p.
    change (disk s') with (Fs.remove p (disk s)). by rewrite Hex.
Qed.

Lemma deleteFrom_id_then_gone_witness :
  let s := Samples.two_users in
  let query := VObj [("id", VStr "u1")] in
  let s' := (deleteFrom "users" query s).2 in
  truthy (or_else (get_prop query "id") (get_prop query "_id")) = true
  ∧ deleteFrom "users" query s = (Ok (VNum 1), s')
  ∧ findOne "users" query s' = (Ok VNull, s')
  ∧ deleteFrom "users" query s' = (Ok (VNum 0), s').
Proof.
  intros s query s'.
  assert (truthy (or_else (get_prop query "id") (get_prop query "_id"))
          = true) as Hid by reflexivity.
  assert (deleteFrom "users" query s = (Ok (VNum 1), s')) as H
    by (by vm_compute).
  split_and!; [exact Hid | exact H | |];
    apply (deleteFrom_id_then_gone "users" query s s' Hid H).
Defined.

End AdapterCalls.

(* ===================================================================== *)
(** ** [normalizeName] and [deepUpdate] *)
(* ===================================================================== *)

Module UtilsFacts.
Import JS Utils.

Lemma name_char_canonical a :
  let b := Str.lower (if name_char_ok a then a else "_"%char) in
  Str.is_lower b || Str.is_digit b
  || bool_decide (b = "_"%char) || bool_decide (b = "-"%char) = true.
Proof.
  destruct a as [[] [] [] [] [] [] [] []]; reflexivity.
Qed.

(** X13. [normalizeName] yields a canonical name: as long as its
    argument, made of the characters [a-z], [0-9], [_] and [-] only (no
    path separator, no dot, no upper case), and unchanged when normalized
    again. *)
Theorem normalizeName_canonical name :
  String.length (normalizeName name) = String.length name
  ∧ Forall (λ b, Str.is_lower b || Str.is_digit b
                 || bool_decide (b = "_"%char) || bool_decide (b = "-"%char)
                 = true)
      (list_ascii_of_string (normalizeName name))
  ∧ normalizeName (normalizeName name) = normalizeName name.
Proof.
  split_and!.
  - unfold normalizeName, Str.toLowerCase.
    induction name as [|a r IH]; [done|]. simpl. by rewrite IH.
  - unfold normalizeName, Str.toLowerCase.
    induction name as [|a r IH]; [constructor|]. simpl.
    constructor; [apply name_char_canonical | exact IH].
  - apply AdapterFacts.normalizeName_idem.
Qed.






End UtilsFacts.

(* ===================================================================== *)
(** ** The engine and the coordinator *)
(* ===================================================================== *)

Module EngineFacts.
Import JS AdapterSpec.

(** X15. After [close()] the engine knows no collection and its adapter
    is disconnected.  The calls that ask the registry first answer as for
    a collection that does not exist ([findOne] gives [null], [find] the
    empty array, [update] and [deleteFrom] 0) and do not throw; the
    key/value calls, [createCollection] and [insert] reach the adapter and
    throw the "not connected" error.  None of them changes anything. *)
Theorem engine_closed_answers e s :
  let s' := (StorageEngine.close s).2 in
  (∀ c q, StorageEngine.findOne c q s' = (Ok VNull, s'))
  ∧ (∀ c q, StorageEngine.find c q s' = (Ok (VArr []), s'))
  ∧ (∀ c q u, StorageEngine.update e c q u s' = (Ok (VNum 0), s'))
  ∧ (∀ c q, StorageEngine.deleteFrom c q s' = (Ok (VNum 0), s'))
  ∧ (∀ k v, StorageEngine.set k v s' = (Throw not_connected, s'))
  ∧ (∀ k, StorageEngine.get k s' = (Throw not_connected, s'))
  ∧ (∀ k, StorageEngine.has k s' = (Throw not_connected, s'))
  ∧ (∀ k, StorageEngine.delete k s' = (Throw not_connected, s'))
  ∧ (∀ c, StorageEngine.createCollection c s' = (Throw not_connected, s'))
  ∧ (∀ c d, StorageEngine.insert e c d s' = (Throw not_connected, s')).
Proof.
  intros s'. unfold s', StorageEngine.close, StorageEngine.on_adapter.
  cbn [FileStoreAdapter.close snd]. split_and!; intros; reflexivity.
Qed.

End EngineFacts.

Module HyperDBCalls.
Import JS HyperDB AdapterSpec.

(** X16. The coordinator reads its own writes from the cache: a [get]
    within the time to live of the cache after [set(key, v)], for a [v]
    other than [undefined], returns [v] itself, whatever the storage
    answered to the [set], refused and thrown included. *)
Theorem hyperdb_read_your_write e e' key v h :
  strict_eq v VUndefined = false →
  now e' ≤ now e + MemoryCache.ttl (cache h) →
  (get e' key (set e key v h).2).1 = Ok v.
Proof.
  intros Hv Ht. unfold set.
  destruct (StorageEngine.set key v (storage h)) as [result st].
  unfold get. cbn [snd cache storage].
  set (c := (MemoryCache.set (now e) key v None (cache h)).2).
  assert (MemoryCache.get (now e') key c
          = (v, MemoryCache.count_hit c)) as ->.
  { unfold MemoryCache.get.
    assert (lookup_field key (MemoryCache.cache c) = Some v) as Hl
      by apply HyperDBFacts.cache_set_holds.
    assert (MemoryCache.map_has key (MemoryCache.cache c) = true) as ->.
    { apply bool_decide_eq_true. rewrite Hl. by eexists. }
    assert (lookup_field key (MemoryCache.expiry c)
            = Some (now e + MemoryCache.ttl (cache h))) as ->.
    { unfold c, MemoryCache.set. simpl. apply lookup_set_field_eq. }
    cbn [negb MemoryCache.expired]. rewrite Hl.
    replace (_ <? _) with false by (symmetry; lia). done. }
  by rewrite Hv.
Qed.

Lemma hyperdb_read_your_write_witness :
  let h := (close (create ["data"] Fs.empty)).2 in
  let e := Env 100 "g" in
  let e' := Env 200 "g" in
  (set e "k" (VNum 0) h).1 = Throw not_connected
  ∧ (get e' "k" (set e "k" (VNum 0) h).2).1 = Ok (VNum 0).
Proof.
  intros h e e'. split; [reflexivity|].
  apply (hyperdb_read_your_write e e' "k" (VNum 0) h); [reflexivity|].
  by vm_compute.
Defined.

(** X17. A [delete] the storage acknowledged removes the key from cache
    and storage alike: afterwards [get] returns [null] and [has] returns
    [false]. *)
Theorem hyperdb_delete_then_absent e key h h' :
  delete key h = (Ok (VBool true), h') →
  (get e key h').1 = Ok VNull
  ∧ (has e key h').1 = Ok (VBool false).
Proof.
  unfold delete, StorageEngine.delete, StorageEngine.on_adapter.
  destruct (FileStoreAdapter.delete key (StorageEngine.adapter (storage h)))
    as [r a'] eqn:Hdel.
  intros [= -> <-].
  apply AdapterCalls.delete_true_inv in Hdel as [Hc ->].
  set (a' := FileStoreAdapter.with_disk _ _).
  destruct (AdapterCalls.absent_key_calls key a') as (Hhas & Hget & _).
  { done. }
  { apply AdapterCalls.existsSync_remove, AdapterCalls.join_json_nonempty. }
  set (c := (MemoryCache.delete key (cache h)).2).
  assert (MemoryCache.map_has key (MemoryCache.cache c) = false) as Hmiss.
  { apply bool_decide_eq_false. unfold c.
    rewrite CacheFacts.delete_cache, lookup_delete_field_eq.
    by intros [? ?]. }
  split.
  - unfold get, MemoryCache.get. cbn [cache storage]. rewrite Hmiss.
    simpl. unfold StorageEngine.get, StorageEngine.on_adapter.
    cbn [StorageEngine.adapter]. by rewrite Hget.
  - unfold has, MemoryCache.has. cbn [cache storage]. rewrite Hmiss.
    simpl. unfold StorageEngine.has, StorageEngine.on_adapter.
    cbn [StorageEngine.adapter]. by rewrite Hhas.
Qed.

Lemma hyperdb_delete_then_absent_witness :
  let e := Env 100 "g" in
  let h := (set e "k" (VNum 1) (create ["data"] Fs.empty)).2 in
  let h' := (delete "k" h).2 in
  delete "k" h = (Ok (VBool true), h')
  ∧ (get e "k" h').1 = Ok VNull
  ∧ (has e "k" h').1 = Ok (VBool false).
Proof.
  intros e h h'.
  assert (delete "k" h = (Ok (VBool true), h')) as H by (by vm_compute).
  split; [exact H|]. exact (hyperdb_delete_then_absent e "k" h h' H).
Defined.

End HyperDBCalls.

(* ===================================================================== *)
(** ** Key/value pairs in the JSON adapter *)
(* ===================================================================== *)

Module JSONAdapterCalls.
Import JS Utils Eff JSONAdapter JSONAdapterFacts.

(** X18. The JSON adapter keeps the key/value pairs in memory and
    answers from there.  On a connected adapter, for a key other than
    ["__proto__"], [set] answers [true] whether or not the data files could
    be written; the [get] that follows returns the value itself when it is
    truthy and [null] when it is falsy ([0], [""], [false], [null],
    [undefined]), and [has] answers [true] either way. *)
Theorem json_set_then_get key v s :
  connected s = true →
  key ≠ "__proto__" →
  ∃ s', set key v s = (Ok (Some (VBool true)), s')
        ∧ kvStore s' = set_field key v (kvStore s)
        ∧ get key s' = (Ok (Some (if truthy v then v else VNull)), s')
        ∧ has key s' = (Ok (VBool true), s').
Proof.
  intros Hc Hkey.
  set (s1 := {| disk := disk s; dataDir := dataDir s;
                connected := connected s;
                kvStore := set_field key v (kvStore s);
                collections := collections s |}).
  destruct (saveData_disk_only s1) as (b & m & Hsave).
  exists (with_disk m s1).
  assert (lookup_field key (kvStore (with_disk m s1)) = Some v) as Hl
    by apply lookup_set_field_eq.
  split_and!.
  - unfold set. rewrite json_guard_passes by done.
    rewrite decide_False by done. unfold_m. fold s1. by rewrite Hsave.
  - done.
  - unfold get. rewrite json_guard_passes by done. unfold_m.
    by rewrite Hl.
  - unfold has. rewrite json_guard_passes by done. unfold_m.
    unfold has_property. rewrite Hl.
    by rewrite bool_decide_eq_true_2 by (by eexists).
Qed.

Lemma json_set_then_get_witness :
  let s := Samples.one_user in
  connected s = true
  ∧ "n" ≠ "__proto__"
  ∧ ∃ s', set "n" (VNum 0) s = (Ok (Some (VBool true)), s')
          ∧ kvStore s' = set_field "n" (VNum 0) (kvStore s)
          ∧ get "n" s' = (Ok (Some VNull), s')
          ∧ has "n" s' = (Ok (VBool true), s').
Proof.
  intros s.
  assert (connected s = true) as Hc by reflexivity.
  assert ("n" ≠ "__proto__") as Hk by done.
  split_and!; [exact Hc | exact Hk |].
  exact (json_set_then_get "n" (VNum 0) s Hc Hk).
Defined.

(** X19. [delete] in the JSON adapter, for a key that is no inherited
    name of objects: it answers whether the store held the key, and
    afterwards [has] answers [false] and [get] answers [null]. *)
Theorem json_delete_then_absent key s :
  connected s = true →
  key ∉ inherited →
  ∃ s', (delete key s
         = (Ok (VBool
                  (bool_decide (is_Some (lookup_field key (kvStore s))))),
            s'))
        ∧ has key s' = (Ok (VBool false), s')
        ∧ get key s' = (Ok (Some VNull), s').
Proof.
  intros Hc Hkey.
  assert (bool_decide (key ∈ inherited) = false) as Hinh
    by (by apply bool_decide_eq_false).
  assert (∀ s0, connected s0 = true →
                lookup_field key (kvStore s0) = None →
                has key s0 = (Ok (VBool false), s0)
                ∧ get key s0 = (Ok (Some VNull), s0)) as Habsent.
  { intros s0 Hc0 Hl. split.
    - unfold has. rewrite json_guard_passes by done. unfold_m.
      unfold has_property. rewrite Hl, Hinh.
      by rewrite bool_decide_eq_false_2 by (by intros [? ?]).
    - unfold get. rewrite json_guard_passes by done. unfold_m.
      by rewrite Hl, Hinh. }
  unfold delete. rewrite json_guard_passes by done. unfold_m.
  unfold has_property. rewrite Hinh, orb_false_r.
  destruct (lookup_field key (kvStore s)) as [x|] eqn:Hl.
  - rewrite bool_decide_eq_true_2 by (by eexists).
    set (s1 := {| disk := disk s; dataDir := dataDir s;
                  connected := connected s;
                  kvStore := delete_field key (kvStore s);
                  collections := collections s |}).
    destruct (saveData_disk_only s1) as (b & m & Hsave).
    exists (with_disk m s1). rewrite Hsave. split; [done|].
    apply Habsent; [done|]. apply lookup_delete_field_eq.
  - rewrite bool_decide_eq_false_2 by (by intros [? ?]).
    exists s. split; [done|]. by apply Habsent.
Qed.

Lemma json_delete_then_absent_witness :
  let s := Samples.one_user in
  connected s = true
  ∧ ("n" ∉ inherited)
  ∧ ∃ s', delete "n" s = (Ok (VBool false), s')
          ∧ has "n" s' = (Ok (VBool false), s')
          ∧ get "n" s' = (Ok (Some VNull), s').
Proof.
  intros s.
  assert (connected s = true) as Hc by reflexivity.
  assert ("n" ∉ inherited) as Hk.
  { unfold inherited. intros Hin.
    repeat (apply elem_of_cons in Hin as [Hin|Hin]; [done|]).
    by apply elem_of_nil in Hin. }
  split_and!; [exact Hc | exact Hk |].
  exact (json_delete_then_absent "n" s Hc Hk).
Defined.

End JSONAdapterCalls.

(* ===================================================================== *)
(** ** The configuration *)
(* ===================================================================== *)

Module ConfigFacts.
Import JS Config.

Lemma get_prop_own v k :
  k ≠ "length" →
  get_prop v k = default VUndefined (lookup_field k (own_entries v)).
Proof.
  intros Hk. destruct v; try done; simpl; by rewrite decide_False.
Qed.

Lemma lookup_reverse_NoDup {A} k (l : list (string * A)) :
  NoDup l.*1 → lookup_field k (reverse l) = lookup_field k l.
Proof.
  intros Hnd.
  assert (NoDup (reverse l).*1) as Hnd'.
  { by rewrite fmap_reverse, reverse_Permutation. }
  destruct (lookup_field k l) as [x|] eqn:Hl.
  - apply elem_lookup_field; [done|].
    apply elem_of_reverse. by apply lookup_field_elem.
  - apply lookup_field_None. apply lookup_field_None in Hl.
    by rewrite fmap_reverse, elem_of_reverse.
Qed.

(** The spread [{ ...dst, ...src }], read property by property. *)
Lemma lookup_assign k (dst : list (string * value)) (src : value) :
  NoDup (enum_keys src) →
  lookup_field k (assign dst src)
  = match lookup_field k (own_entries src) with
    | Some x => Some x
    | None => lookup_field k dst
    end.
Proof.
  intros Hnd. unfold assign.
  rewrite AdapterFacts.lookup_assign_entries.
  by rewrite lookup_reverse_NoDup.
Qed.

Lemma merged_section k D (config : list (string * value)) :
  k = "cache" ∨ k = "sync" ∨ k = "realtime" →
  D = (if decide (k = "cache") then defaultCache
       else if decide (k = "sync") then defaultSync else defaultRealtime) →
  get_prop (merged config) k
  = VObj (assign (assign [] (VObj D)) (get_prop (VObj config) k)).
Proof.
  intros Hk ->. unfold merged, get_prop at 1, own_entries.
  destruct Hk as [-> | [-> | ->]]; simpl.
  - rewrite !lookup_set_field_ne by done. by rewrite lookup_set_field_eq.
  - rewrite lookup_set_field_ne by done. by rewrite lookup_set_field_eq.
  - by rewrite lookup_set_field_eq.
Qed.

(** A property of a merged section: the one of the configuration if it
    brings it, the default otherwise. *)
Lemma section_prop D (sec : value) k :
  NoDup (enum_keys sec) →
  k ≠ "length" →
  get_prop (VObj (assign (assign [] (VObj D)) sec)) k
  = match lookup_field k (own_entries sec) with
    | Some x => x
    | None => get_prop (VObj (assign [] (VObj D))) k
    end.
Proof.
  intros Hnd Hk. unfold get_prop at 1, own_entries at 1.
  rewrite lookup_assign by done.
  by destruct (lookup_field k (own_entries sec)).
Qed.

Lemma check_storage_inv config config1 :
  check_storage config = Ok config1 →
  get_prop (VObj config1) "sync" = get_prop (VObj config) "sync"
  ∧ get_prop (VObj config1) "realtime" = get_prop (VObj config) "realtime"
  ∧ (NoDup config.*1 → NoDup config1.*1)
  ∧ (truthy (get_prop (VObj config1) "storage") = true →
     ∃ st, get_prop (VObj config1) "storage" = VStr st
           ∧ Str.toLowerCase st ∈ validStorageTypes).
Proof.
  unfold check_storage.
  destruct (truthy (get_prop (VObj config) "storage")) eqn:Ht.
  - destruct (get_prop (VObj config) "storage") as [| | | |st| |] eqn:Hs;
      try done.
    simpl. destruct (bool_decide (Str.toLowerCase st ∈ validStorageTypes))
      eqn:Hv; simpl; intros [= <-].
    + split_and!; try done. intros _. exists st.
      by apply bool_decide_eq_true in Hv.
    + unfold get_prop, own_entries.
      rewrite !lookup_set_field_ne by done. rewrite lookup_set_field_eq.
      split_and!; try done.
      * apply NoDup_keys_set_field.
      * intros _. exists "filestore". split; [done|].
        apply (bool_decide_unpack _). by vm_compute.
  - intros [= <-]. split_and!; try done. by rewrite Ht.
Qed.

(** X20. A configuration [validateConfig] accepts is usable as it is
    returned.  For a configuration object (each object naming a property
    once): if the result names a storage type, it is one of the supported
    ones, up to case (an unsupported one has been replaced by
    ['filestore']); if sync is enabled in the result, its [type] is one of
    the valid sync types, up to case, and its [config] is present; if
    realtime is enabled, [serverUrl] or [server] is present. *)
Theorem validateConfig_well_formed config r :
  NoDup config.*1 →
  NoDup (enum_keys (get_prop (VObj config) "sync")) →
  NoDup (enum_keys (get_prop (VObj config) "realtime")) →
  validateConfig config = Ok r →
  (truthy (get_prop r "storage") = true →
   ∃ st, get_prop r "storage" = VStr st
         ∧ Str.toLowerCase st ∈ validStorageTypes)
  ∧ (truthy (get_prop (get_prop r "sync") "enabled") = true →
     ∃ ty, get_prop (get_prop r "sync") "type" = VStr ty
           ∧ Str.toLowerCase ty ∈ validSyncTypes
           ∧ truthy (get_prop (get_prop r "sync") "config") = true)
  ∧ (truthy (get_prop (get_prop r "realtime") "enabled") = true →
     truthy (get_prop (get_prop r "realtime") "serverUrl")
     || truthy (get_prop (get_prop r "realtime") "server") = true).
Proof.
  intros Hnd Hsync Hrt. unfold validateConfig.
  destruct (check_storage config) as [config1|] eqn:Hst; [|done].
  destruct (check_storage_inv _ _ Hst) as (Hs1 & Hr1 & Hnd1 & Hstorage).
  specialize (Hnd1 Hnd).
  destruct (check_sync config1) as [[]|] eqn:Hcs; [|done].
  destruct (check_realtime config1) as [[]|] eqn:Hcr; [|done].
  intros [= <-]. split_and!.
  - assert (get_prop (merged config1) "storage"
            = match lookup_field "storage" config1 with
              | Some x => x
              | None => VStr "filestore"
              end) as ->.
    { unfold merged, get_prop, own_entries.
      rewrite !lookup_set_field_ne by done.
      rewrite lookup_assign by done. simpl.
      by destruct (lookup_field "storage" config1). }
    unfold get_prop, own_entries in Hstorage.
    destruct (lookup_field "storage" config1) as [x|]; [exact Hstorage|].
    intros _. exists "filestore". split; [done|].
    apply (bool_decide_unpack _). by vm_compute.
  - rewrite (merged_section "sync" defaultSync) by (by auto).
    rewrite Hs1. set (sync := get_prop (VObj config) "sync") in *.
    rewrite !section_prop by done.
    unfold check_sync in Hcs. rewrite Hs1 in Hcs. fold sync in Hcs.
    cbv zeta in Hcs. unfold opt_member in Hcs.
    rewrite !(get_prop_own sync) in Hcs by done.
    destruct (lookup_field "enabled" (own_entries sync)) as [en|] eqn:Hen;
      [|done].
    intros Hen_t.
    assert (nullish sync = false) as Hnn by (by destruct sync).
    rewrite Hnn in Hcs. cbn [default from_option id] in Hcs.
    rewrite Hen_t in Hcs.
    destruct (lookup_field "type" (own_entries sync)) as [ty|]; [|done].
    cbn [default from_option id] in Hcs.
    destruct (truthy ty) eqn:Hty; [|done]. cbn [negb] in Hcs.
    destruct ty as [| | | |tys| |]; try done. simpl in Hcs.
    destruct (bool_decide (Str.toLowerCase tys ∈ validSyncTypes)) eqn:Hv;
      [|done].
    cbn [negb] in Hcs. apply bool_decide_eq_true in Hv.
    destruct (lookup_field "config" (own_entries sync)) as [cf|]; [|done].
    cbn [default from_option id] in Hcs.
    destruct (truthy cf) eqn:Hcf; [|done].
    by exists tys.
  - rewrite (merged_section "realtime" defaultRealtime) by (by auto).
    rewrite Hr1. set (rt := get_prop (VObj config) "realtime") in *.
    rewrite !section_prop by done.
    unfold check_realtime in Hcr. rewrite Hr1 in Hcr. fold rt in Hcr.
    cbv zeta in Hcr. unfold opt_member in Hcr.
    rewrite !(get_prop_own rt) in Hcr by done.
    destruct (lookup_field "enabled" (own_entries rt)) as [en|] eqn:Hen;
      [|done].
    intros Hen_t.
    assert (nullish rt = false) as Hnn by (by destruct rt).
    rewrite Hnn in Hcr. cbn [default from_option id] in Hcr.
    rewrite Hen_t in Hcr.
    destruct (lookup_field "serverUrl" (own_entries rt)) as [u|];
      destruct (lookup_field "server" (own_entries rt)) as [sv|];
      cbn [default from_option id] in *;
      try destruct (truthy u); try destruct (truthy sv); done.
Qed.

Lemma validateConfig_well_formed_witness :
  let config :=
    [("storage", VStr "Mongo");
     ("sync", VObj [("enabled", VBool true); ("type", VStr "AWS");
                    ("config", VObj [])])] in
  ∃ r, validateConfig config = Ok r
       ∧ get_prop r "storage" = VStr "filestore"
       ∧ ∃ ty, get_prop (get_prop r "sync") "type" = VStr ty
               ∧ Str.toLowerCase ty ∈ validSyncTypes
               ∧ truthy (get_prop (get_prop r "sync") "config") = true.
Proof.
  intros config.
  destruct (validateConfig config) as [r|] eqn:H; [|by vm_compute in H].
  exists r.
  assert (NoDup config.*1) as H1 by (apply (bool_decide_unpack _); by vm_compute).
  assert (NoDup (enum_keys (get_prop (VObj config) "sync"))) as H2
    by (apply (bool_decide_unpack _); by vm_compute).
  assert (NoDup (enum_keys (get_prop (VObj config) "realtime"))) as H3
    by (apply (bool_decide_unpack _); by vm_compute).
  destruct (validateConfig_well_formed config r H1 H2 H3 H) as (_ & Hs & _).
  assert (r = merged (set_field "storage" (VStr "filestore") config)) as Hr
    by (vm_compute in H; by injection H as <-).
  split_and!; [done | by rewrite Hr | apply Hs; by rewrite Hr].
Defined.

End ConfigFacts.
